(** * Site blocker: policy store, hosts patcher and control handler

    A shallow embedding of [src/daemon/site_blocker.py] and the properties of
    its policy store ([Config]), hosts-file patcher ([HostsManager]) and
    control handler ([APIHandler.do_POST]).

    Conventions of the embedding.
    - A Python [str] is a [list ascii]; a character is a code point below 256
      (Latin-1), which fixes [str.lower] and [str.isspace] on all 256 values.
    - [datetime] values are integers counting microseconds, without the
      range limits of [datetime]; an exception's [until] field holds the
      instant that its ISO text denotes ([datetime.fromisoformat] inverts
      [datetime.isoformat]).
    - The hosts file exists and is read and written whole, as text.
    - The config file holds either nothing, the empty text left by
      [open(path, "w")], or the JSON text of a policy, which is represented by
      the policy that was dumped. *)

From Stdlib Require Import List Bool Arith ZArith Lia Ascii String.
Import ListNotations.

Local Open Scope list_scope.

(** ** Python strings *)

Module Str.

Definition str := list ascii.

Definition lit (s : string) : str := list_ascii_of_string s.

Definition newline : ascii := ascii_of_nat 10.

Definition str_eqb (a b : str) : bool :=
  if list_eq_dec ascii_dec a b then true else false.

(** [x in xs] on a list of strings. *)
Definition mem (x : str) (xs : list str) : bool := existsb (str_eqb x) xs.

(** [s.startswith(p)] *)
Fixpoint startswith (p s : str) : bool :=
  match p, s with
  | [], _ => true
  | _ :: _, [] => false
  | a :: p', b :: s' => Ascii.eqb a b && startswith p' s'
  end.

(** [needle in hay] on strings: some suffix of [hay] starts with [needle]. *)
Fixpoint contains (needle hay : str) : bool :=
  startswith needle hay ||
  match hay with
  | [] => false
  | _ :: hay' => contains needle hay'
  end.

(** [str.isspace] on one character: TAB..CR, FS..US, SPACE, NEL, NBSP. *)
Definition isspace (c : ascii) : bool :=
  let n := nat_of_ascii c in
  ((9 <=? n) && (n <=? 13)) || ((28 <=? n) && (n <=? 32))
  || (n =? 133) || (n =? 160).

(** [str.lower] on one character: A..Z and the Latin-1 capitals. *)
Definition lower_char (c : ascii) : ascii :=
  let n := nat_of_ascii c in
  if ((65 <=? n) && (n <=? 90))
     || ((192 <=? n) && (n <=? 222) && negb (n =? 215))
  then ascii_of_nat (n + 32) else c.

Definition lower (s : str) : str := map lower_char s.

Fixpoint lstrip (s : str) : str :=
  match s with
  | c :: s' => if isspace c then lstrip s' else s
  | [] => []
  end.

Definition rstrip (s : str) : str := rev (lstrip (rev s)).

(** [s.strip()] *)
Definition strip (s : str) : str := rstrip (lstrip s).

(** [s.split("\n")]: never empty, one more piece than there are newlines. *)
Fixpoint split_nl (s : str) : list str :=
  match s with
  | [] => [[]]
  | c :: s' =>
      if Ascii.eqb c newline then [] :: split_nl s'
      else match split_nl s' with
           | l :: ls => (c :: l) :: ls
           | [] => [[c]]
           end
  end.

(** ["\n".join(ls)] *)
Fixpoint join_nl (ls : list str) : str :=
  match ls with
  | [] => []
  | [l] => l
  | l :: ls' => l ++ newline :: join_nl ls'
  end.

(** [s.split()]: the maximal runs of non-space characters. *)
Fixpoint split_ws_aux (cur : str) (s : str) : list str :=
  match s with
  | [] => match cur with [] => [] | _ => [rev cur] end
  | c :: s' =>
      if isspace c
      then match cur with
           | [] => split_ws_aux [] s'
           | _ => rev cur :: split_ws_aux [] s'
           end
      else split_ws_aux (c :: cur) s'
  end.

Definition split_ws (s : str) : list str := split_ws_aux [] s.

End Str.

Import Str.

(** ** Constants *)

Definition REDIRECT_IP : str := lit "127.0.0.1".
Definition MARKER_START : str := lit "# === SITE BLOCKER START ===".
Definition MARKER_END : str := lit "# === SITE BLOCKER END ===".

(** ** HostsManager *)

Module HostsManager.

(** The loop of [_strip_our_entries]: the state is [(inside_block, result)]. *)
Definition strip_step (st : bool * list str) (line : str) : bool * list str :=
  let '(inside_block, result) := st in
  if contains MARKER_START line then (true, result)
  else if contains MARKER_END line then (false, result)
  else if negb inside_block then (inside_block, result ++ [line])
  else (inside_block, result).

(** [while result and result[-1].strip() is empty: result.pop()], on the
    reversed list. *)
Fixpoint pop_blank_front (rs : list str) : list str :=
  match rs with
  | l :: rs' =>
      match strip l with
      | [] => pop_blank_front rs'
      | _ :: _ => rs
      end
  | [] => []
  end.

Definition pop_trailing_blank (result : list str) : list str :=
  rev (pop_blank_front (rev result)).

Definition _strip_our_entries (content : str) : str :=
  let lines := split_nl content in
  let result := snd (fold_left strip_step lines (false, [])) in
  join_nl (pop_trailing_blank result).

(** The text that [apply_blocklist] appends for a non-empty [sites]. *)
Definition render_block (sites : list str) : str :=
  let block :=
    [newline :: MARKER_START]
    ++ map (fun site => REDIRECT_IP ++ lit "  " ++ site) sites
    ++ [MARKER_END] in
  join_nl block ++ [newline].

(** [apply_blocklist]: from the content read to the content written. *)
Definition apply_blocklist (sites : list str) (content : str) : str :=
  let clean := _strip_our_entries content in
  match sites with
  | [] => clean
  | _ :: _ => clean ++ render_block sites
  end.

Definition clear (content : str) : str := _strip_our_entries content.

(** The loop of [get_current_blocks]: the state is [(inside, sites)]. *)
Definition blocks_step (st : bool * list str) (line : str) : bool * list str :=
  let '(inside, sites) := st in
  if contains MARKER_START line then (true, sites)
  else if contains MARKER_END line then (false, sites)
  else if inside && negb (str_eqb (strip line) [])
  then match split_ws line with
       | _ :: p1 :: _ => (inside, sites ++ [p1])
       | _ => (inside, sites)
       end
  else (inside, sites).

Definition get_current_blocks (content : str) : list str :=
  snd (fold_left blocks_step (split_nl content) (false, [])).

End HostsManager.

(** ** Config: the policy store *)

Module Config.

(** One entry of [self.exceptions]: [{"site": ..., "until": ...}]. *)
Record exception := { site : str; until : Z }.

(** Equality of two entries, as Python compares dicts. *)
Definition exc_eqb (a b : exception) : bool :=
  str_eqb (site a) (site b) && Z.eqb (until a) (until b).

(** [e in es] on a list of entries. *)
Definition exc_mem (e : exception) (es : list exception) : bool :=
  existsb (exc_eqb e) es.

(** The [data] dict that [save] dumps. *)
Record data := {
  d_blocked_sites : list str;
  d_exceptions : list exception;
  d_enabled : bool
}.

(** What the config file holds. *)
Inductive cfile :=
| NoFile
| EmptyFile
| JsonFile (d : data).

(** A [Config] object together with the file at [self.path]; [saves] counts
    the completed calls of [save]. *)
Record t := {
  blocked_sites : list str;
  exceptions : list exception;
  enabled : bool;
  file : cfile;
  saves : nat
}.

Definition set_blocked_sites (v : list str) (c : t) : t :=
  {| blocked_sites := v; exceptions := exceptions c; enabled := enabled c;
     file := file c; saves := saves c |}.

Definition set_exceptions (v : list exception) (c : t) : t :=
  {| blocked_sites := blocked_sites c; exceptions := v; enabled := enabled c;
     file := file c; saves := saves c |}.

Definition set_enabled (v : bool) (c : t) : t :=
  {| blocked_sites := blocked_sites c; exceptions := exceptions c; enabled := v;
     file := file c; saves := saves c |}.

Definition set_file (v : cfile) (c : t) : t :=
  {| blocked_sites := blocked_sites c; exceptions := exceptions c;
     enabled := enabled c; file := v; saves := saves c |}.

Definition data_of (c : t) : data :=
  {| d_blocked_sites := blocked_sites c; d_exceptions := exceptions c;
     d_enabled := enabled c |}.

(** The statements of [save], in program order. *)

(** [self.path.parent.mkdir(parents=True, exist_ok=True)] *)
Definition save_mkdir (c : t) : t := c.

(** [open(self.path, "w")]: the file at [self.path] itself is created or
    truncated. *)
Definition save_open (c : t) : t := set_file EmptyFile c.

(** [json.dump(data, f, indent=2)] and the close that ends the [with]. *)
Definition save_dump (c : t) : t :=
  {| blocked_sites := blocked_sites c; exceptions := exceptions c;
     enabled := enabled c; file := JsonFile (data_of c);
     saves := S (saves c) |}.

Definition save_steps : list (t -> t) := [save_mkdir; save_open; save_dump].

Definition save (c : t) : t := fold_left (fun c step => step c) save_steps c.

(** What a reader of the config file can see while [save] runs: the file
    before the call and after each statement. *)
Fixpoint file_trace (steps : list (t -> t)) (c : t) : list cfile :=
  file c ::
  match steps with
  | [] => []
  | step :: steps' => file_trace steps' (step c)
  end.

(** [site.lower().strip()] *)
Definition normalize (raw : str) : str := strip (lower raw).

Definition www : str := lit "www.".

(** [site[4:]] when [site.startswith("www.")], else [f"www.{site}"]. *)
Definition other_variant (site : str) : str :=
  if startswith www site then skipn 4 site else www ++ site.

(** The elements of the set [variants] of [add_site], in iteration order.
    The order of a Python set of strings is not fixed; [first_site] says
    whether [site] comes first. *)
Definition variant_set (first_site : bool) (site : str) : list str :=
  let other := other_variant site in
  if str_eqb site other then [site]
  else if first_site then [site; other] else [other; site].

Definition add_site (first_site : bool) (raw : str) (c : t) : t :=
  let site := normalize raw in
  let c' :=
    fold_left
      (fun c v =>
         if mem v (blocked_sites c) then c
         else set_blocked_sites (blocked_sites c ++ [v]) c)
      (variant_set first_site site) c in
  save c'.

Definition remove_site (raw : str) (c : t) : t :=
  let site := normalize raw in
  let variants := [site] ++ [other_variant site] in
  save (set_blocked_sites
          (filter (fun s => negb (mem s variants)) (blocked_sites c)) c).

(** [timedelta(minutes=minutes)] in microseconds. *)
Definition timedelta_minutes (minutes : Z) : Z := (minutes * 60000000)%Z.

Definition add_exception (now : Z) (raw : str) (minutes : Z) (c : t) : t :=
  let site := normalize raw in
  let until := (now + timedelta_minutes minutes)%Z in
  let kept := filter (fun e => negb (str_eqb (Config.site e) site))
                     (exceptions c) in
  save (set_exceptions (kept ++ [{| site := site; until := until |}]) c).

Definition remove_exception (raw : str) (c : t) : t :=
  let site := normalize raw in
  save (set_exceptions
          (filter (fun e => negb (str_eqb (Config.site e) site))
                  (exceptions c)) c).

(** The loop of [get_active_exceptions]: the state is [(active, expired)]. *)
Definition sort_exception (now : Z) (st : list str * list exception)
    (exc : exception) : list str * list exception :=
  let '(active, expired) := st in
  if (now <? until exc)%Z then (active ++ [site exc], expired)
  else (active, expired ++ [exc]).

Definition get_active_exceptions (now : Z) (c : t) : list str * t :=
  let '(active, expired) :=
    fold_left (sort_exception now) (exceptions c) ([], []) in
  match expired with
  | [] => (active, c)
  | _ :: _ =>
      (active,
       save (set_exceptions
               (filter (fun e => negb (exc_mem e expired)) (exceptions c)) c))
  end.

Definition get_effective_blocklist (now : Z) (c : t) : list str * t :=
  if negb (enabled c) then ([], c)
  else
    let '(excepted, c') := get_active_exceptions now c in
    (filter (fun s => negb (mem s excepted)) (blocked_sites c'), c').

End Config.

(** ** APIHandler: the control surface *)

Module APIHandler.

(** The JSON values of a request body that the handler tells apart
    (numbers are integers here; arrays and objects are left out). *)
Inductive jvalue :=
| JNull
| JBool (b : bool)
| JNum (n : Z)
| JStr (s : str).

(** Python truthiness, as tested by [if site:]. *)
Definition truthy (v : jvalue) : bool :=
  match v with
  | JNull => false
  | JBool b => b
  | JNum n => negb (Z.eqb n 0)
  | JStr s => match s with [] => false | _ :: _ => true end
  end.

(** The parsed body: a dict, [{}] when there is no content. *)
Definition body := list (str * jvalue).

(** [body.get(key, default)] *)
Fixpoint dict_get (key : str) (b : body) (default : jvalue) : jvalue :=
  match b with
  | [] => default
  | (k, v) :: b' => if str_eqb k key then v else dict_get key b' default
  end.

(** The handler's collaborators: the shared [Config] and the hosts file
    behind [hosts_mgr]. *)
Record world := { config : Config.t; hosts : str }.

Inductive message :=
| Added (site : str)
| Removed (site : str)
| ExceptionFor (site : str) (minutes : Z)
| RemovedException (site : str)
| Blocker (now_enabled : bool).

Inductive response :=
| Status (code : nat) (msg : message) (enabled : bool)
         (blocked_sites : list str) (exceptions : list Config.exception)
         (effective_blocklist : list str)
| Error (code : nat) (error : option str)
| Raised.

(** What the environment supplies during one request: the iteration order
    of the variant set, and [datetime.now()] at the mutation and at the
    later evaluation of the effective blocklist. *)
Record env := { first_site : bool; now_mutate : Z; now_apply : Z }.

Definition _apply_and_respond (e : env) (msg : message) (w : world)
    : response * world :=
  let '(effective, c) := Config.get_effective_blocklist (now_apply e) (config w) in
  let h := HostsManager.apply_blocklist effective (hosts w) in
  (Status 200 msg (Config.enabled c) (Config.blocked_sites c)
          (Config.exceptions c) effective,
   {| config := c; hosts := h |}).

Definition no_site : response := Error 400 (Some (lit "No site provided")).

(** [timedelta(minutes=...)] accepts an int (a bool is an int); any other
    value raises. *)
Definition minutes_of (v : jvalue) : option Z :=
  match v with
  | JNum n => Some n
  | JBool b => Some (if b then 1%Z else 0%Z)
  | _ => None
  end.

Definition do_POST (e : env) (path : str) (b : body) (w : world)
    : response * world :=
  if str_eqb path (lit "/api/add_site") then
    let site := dict_get (lit "site") b (JStr []) in
    if truthy site then
      match site with
      | JStr s =>
          _apply_and_respond e (Added s)
            {| config := Config.add_site (first_site e) s (config w);
               hosts := hosts w |}
      | _ => (Raised, w)
      end
    else (no_site, w)
  else if str_eqb path (lit "/api/remove_site") then
    let site := dict_get (lit "site") b (JStr []) in
    if truthy site then
      match site with
      | JStr s =>
          _apply_and_respond e (Removed s)
            {| config := Config.remove_site s (config w); hosts := hosts w |}
      | _ => (Raised, w)
      end
    else (no_site, w)
  else if str_eqb path (lit "/api/add_exception") then
    let site := dict_get (lit "site") b (JStr []) in
    let minutes := dict_get (lit "minutes") b (JNum 15) in
    if truthy site then
      match site, minutes_of minutes with
      | JStr s, Some m =>
          _apply_and_respond e (ExceptionFor s m)
            {| config := Config.add_exception (now_mutate e) s m (config w);
               hosts := hosts w |}
      | _, _ => (Raised, w)
      end
    else (no_site, w)
  else if str_eqb path (lit "/api/remove_exception") then
    let site := dict_get (lit "site") b (JStr []) in
    if truthy site then
      match site with
      | JStr s =>
          _apply_and_respond e (RemovedException s)
            {| config := Config.remove_exception s (config w);
               hosts := hosts w |}
      | _ => (Raised, w)
      end
    else (no_site, w)
  else if str_eqb path (lit "/api/toggle") then
    let c := Config.save (Config.set_enabled (negb (Config.enabled (config w)))
                                             (config w)) in
    _apply_and_respond e (Blocker (Config.enabled c))
      {| config := c; hosts := hosts w |}
  else (Error 404 None, w).

End APIHandler.

(** ** Definitions used to state and prove the properties *)

(** The lines that the loop of [_strip_our_entries] keeps, and the final
    value of [inside_block], by recursion on the lines. *)
Fixpoint kept (inside : bool) (lines : list str) : list str :=
  match lines with
  | [] => []
  | l :: ls =>
      if contains MARKER_START l then kept true ls
      else if contains MARKER_END l then kept false ls
      else if inside then kept inside ls else l :: kept inside ls
  end.

Fixpoint final_inside (inside : bool) (lines : list str) : bool :=
  match lines with
  | [] => inside
  | l :: ls =>
      if contains MARKER_START l then final_inside true ls
      else if contains MARKER_END l then final_inside false ls
      else final_inside inside ls
  end.

(** What [apply_blocklist] appends to the stripped content. *)
Definition block_text (sites : list str) : str :=
  match sites with
  | [] => []
  | _ :: _ => HostsManager.render_block sites
  end.

(** No hostname carries the end marker inside it. *)
Definition plain_sites (sites : list str) : Prop :=
  Forall (fun s => contains MARKER_END s = false) sites.

(** The calls that rewrite the hosts file. *)
Inductive hosts_call :=
| Apply (sites : list str)
| Clear.

Definition run_call (k : hosts_call) (content : str) : str :=
  match k with
  | Apply sites => HostsManager.apply_blocklist sites content
  | Clear => HostsManager.clear content
  end.

Definition run_calls (ks : list hosts_call) (content : str) : str :=
  fold_left (fun c k => run_call k c) ks content.

Definition call_sites (k : hosts_call) : list str :=
  match k with
  | Apply sites => sites
  | Clear => []
  end.

(** A text from its lines, each ended by a newline. *)
Definition text (lines : list string) : str :=
  List.concat (map (fun l => lit l ++ [newline]) lines).

(** The effective block set in the words of the specification: nothing when
    disabled, else the blocked sites without an exception whose expiry is
    strictly later than [now]. *)
Definition has_active_exception (now : Z) (es : list Config.exception)
    (s : str) : bool :=
  existsb (fun e => str_eqb (Config.site e) s && (now <? Config.until e)%Z) es.

Definition effective_block_set (now : Z) (c : Config.t) : list str :=
  if Config.enabled c
  then filter (fun s => negb (has_active_exception now (Config.exceptions c) s))
              (Config.blocked_sites c)
  else [].

(** An exception is expired at [now] when its expiry is not later. *)
Definition expired_at (now : Z) (e : Config.exception) : bool :=
  (Config.until e <=? now)%Z.

(** The bare form of a normalized hostname. *)
Definition bare (site : str) : str :=
  if startswith Config.www site then skipn 4 site else site.

(** The lines of a file that lie outside the region, without the trailing
    blank ones. *)
Definition outside_lines (content : str) : list str :=
  HostsManager.pop_trailing_blank (kept false (split_nl content)).

(** A line outside the region: no newline and neither marker in it. *)
Definition outer_line (l : str) : Prop :=
  ~ In newline l /\ contains MARKER_START l = false
  /\ contains MARKER_END l = false.

(** A line between the markers: no newline and no end marker in it. *)
Definition inner_line (l : str) : Prop :=
  ~ In newline l /\ contains MARKER_END l = false.

(** One line of the rendered block: [f"{REDIRECT_IP}  {site}"]. *)
Definition site_line (site : str) : str := REDIRECT_IP ++ lit "  " ++ site.

(** The lines that stand for a stripped content in the file: the empty
    content is the single empty line. *)
Definition as_lines (rs : list str) : list str :=
  match rs with
  | [] => [[]]
  | _ :: _ => rs
  end.

(** One iteration of the loop of [add_site]. *)
Definition add_variant (c : Config.t) (v : str) : Config.t :=
  if mem v (Config.blocked_sites c) then c
  else Config.set_blocked_sites (Config.blocked_sites c ++ [v]) c.

(** The four control paths that take a [site] field. *)
Definition site_paths : list str :=
  [lit "/api/add_site"; lit "/api/remove_site";
   lit "/api/add_exception"; lit "/api/remove_exception"].

(** The body has no [site] key. *)
Definition site_missing (b : APIHandler.body) : Prop :=
  forall v, ~ In (lit "site", v) b.

(** The body has an empty [site]. *)
Definition site_empty (b : APIHandler.body) : Prop :=
  APIHandler.dict_get (lit "site") b (APIHandler.JStr []) = APIHandler.JStr [].

(** ** The rest of the program: loading, status, the main loop *)

Definition DEFAULT_BLOCKED : list str :=
  [lit "facebook.com"; lit "www.facebook.com";
   lit "twitter.com"; lit "www.twitter.com";
   lit "x.com"; lit "www.x.com";
   lit "instagram.com"; lit "www.instagram.com";
   lit "reddit.com"; lit "www.reddit.com";
   lit "tiktok.com"; lit "www.tiktok.com";
   lit "youtube.com"; lit "www.youtube.com"].

Module ConfigIO.

(** What [load] can find at [self.path]. An object is given by its three
    keys, each present or not; the values of the present keys have the
    JSON types that [save] writes ([load] does not check them, and files
    with other value types are not covered). *)
Inductive content :=
| Missing
| Unparsable
| NotObject
| Object (blocked_sites : option (list str))
         (exceptions : option (list Config.exception))
         (enabled : option bool).

(** The states of the file that [save] goes through, as [load] sees them:
    the truncated file does not parse, and a dumped policy is an object
    with all three keys. *)
Definition on_disk (f : Config.cfile) : content :=
  match f with
  | Config.NoFile => Missing
  | Config.EmptyFile => Unparsable
  | Config.JsonFile d =>
      Object (Some (Config.d_blocked_sites d))
             (Some (Config.d_exceptions d))
             (Some (Config.d_enabled d))
  end.

(** [data.get(key, default)] *)
Definition get {A} (v : option A) (default : A) : A :=
  match v with
  | Some x => x
  | None => default
  end.

(** The result of [load]: the object after the call, and whether its
    [blocked_sites] is the list [DEFAULT_BLOCKED] itself (the default of
    [data.get] is that very list, not a copy); or an exception. *)
Inductive loaded :=
| Loaded (c : Config.t) (aliased : bool)
| Raises.

(** [Config.load]. [DEFAULT] is what the module-level list
    [DEFAULT_BLOCKED] holds at the time of the call. [json.load] raises
    on a file that does not parse, and [data.get] raises when the parsed
    value is not an object. *)
Definition load (DEFAULT : list str) (d : content) (c : Config.t) : loaded :=
  match d with
  | Object blocked_sites exceptions enabled =>
      Loaded {| Config.blocked_sites := get blocked_sites DEFAULT;
                Config.exceptions := get exceptions [];
                Config.enabled := get enabled true;
                Config.file := Config.file c;
                Config.saves := Config.saves c |}
             (match blocked_sites with None => true | Some _ => false end)
  | Unparsable => Raises
  | NotObject => Raises
  | Missing =>
      Loaded (Config.save
                {| Config.blocked_sites := DEFAULT;
                   Config.exceptions := [];
                   Config.enabled := true;
                   Config.file := Config.file c;
                   Config.saves := Config.saves c |})
             false
  end.

(** The fields that [Config.__init__] sets before it calls [load]. *)
Definition fresh (f : Config.cfile) : Config.t :=
  {| Config.blocked_sites := []; Config.exceptions := [];
     Config.enabled := true; Config.file := f; Config.saves := 0 |}.

(** [Config.__init__] on a path where the file is in the state [f]. *)
Definition init (f : Config.cfile) : option Config.t :=
  match load DEFAULT_BLOCKED (on_disk f) (fresh f) with
  | Loaded c _ => Some c
  | Raises => None
  end.

End ConfigIO.

Module DNSMonitor.

(** What one call of [socket.gethostbyname] does: it returns an address,
    raises [socket.gaierror], or raises something else (a [UnicodeError]
    for a name that cannot be encoded, for one). *)
Inductive lookup :=
| Address (ip : str)
| GaiError
| OtherError.

(** [self.resolved_ips] *)
Definition table := list (str * str).

(** [table[key] = value] *)
Fixpoint table_set (key value : str) (t : table) : table :=
  match t with
  | [] => [(key, value)]
  | (k, v) :: t' =>
      if str_eqb k key then (k, value) :: t'
      else (k, v) :: table_set key value t'
  end.


(** The loop of [resolve_sites] from the [i]-th site on: [gethostbyname]
    answers the [i]-th call of the round; only [socket.gaierror] is caught.
    The boolean tells whether the loop came to its end. *)
Fixpoint resolve_from (gethostbyname : nat -> str -> lookup) (i : nat)
    (sites : list str) (t : table) : table * bool :=
  match sites with
  | [] => (t, true)
  | site :: rest =>
      match gethostbyname i site with
      | Address ip => resolve_from gethostbyname (S i) rest (table_set site ip t)
      | GaiError =>
          resolve_from gethostbyname (S i) rest
                       (table_set site (lit "unresolved") t)
      | OtherError => (t, false)
      end
  end.

Definition resolve_sites (gethostbyname : nat -> str -> lookup)
    (sites : list str) (t : table) : table * bool :=
  resolve_from gethostbyname 0 sites t.

(** What [log_status] prints: the enabled flag, the number of sites being
    blocked and the sites under an exception. *)
Record status_lines := {
  shown_enabled : bool;
  shown_blocking : nat;
  shown_exceptions : list str
}.

(** [log_status]: [get_effective_blocklist] at [t1], then
    [get_active_exceptions] at [t2]. *)
Definition log_status (t1 t2 : Z) (c : Config.t) : status_lines * Config.t :=
  let '(effective, c1) := Config.get_effective_blocklist t1 c in
  let '(excepted, c2) := Config.get_active_exceptions t2 c1 in
  ({| shown_enabled := Config.enabled c2;
      shown_blocking := List.length effective;
      shown_exceptions := excepted |}, c2).

End DNSMonitor.

Module StatusAPI.

Import APIHandler.

Inductive get_response :=
| StatusBody (enabled : bool) (blocked_sites : list str)
             (exceptions : list Config.exception)
             (effective_blocklist : list str)
| Pong
| NotFound.

(** [APIHandler.do_GET]. The dict of the status answer is built left to
    right: [exceptions] is the list held before [get_effective_blocklist]
    runs, and pruning binds a new list instead of changing that one. *)
Definition do_GET (now : Z) (path : str) (w : world) : get_response * world :=
  if str_eqb path (lit "/api/status") then
    let enabled := Config.enabled (config w) in
    let blocked_sites := Config.blocked_sites (config w) in
    let exceptions := Config.exceptions (config w) in
    let '(effective, c) := Config.get_effective_blocklist now (config w) in
    (StatusBody enabled blocked_sites exceptions effective,
     {| config := c; hosts := hosts w |})
  else if str_eqb path (lit "/api/ping") then (Pong, w)
  else (NotFound, w).

End StatusAPI.

Module Main.

Import APIHandler.

(** The running process, seen one whole step at a time (a request, a
    round of the loop, an edit of the config file from outside): the
    handler's world, what an outside edit has put into the config file
    since the last save (if anything), what the list [DEFAULT_BLOCKED]
    holds now, whether [config.blocked_sites] is that very list, and the
    monitor's table. File operations on the hosts file succeed. *)
Record process := {
  world : APIHandler.world;
  edited : option ConfigIO.content;
  default_blocked : list str;
  aliased : bool;
  resolved_ips : DNSMonitor.table
}.

(** What the config file holds. *)
Definition disk (p : process) : ConfigIO.content :=
  match edited p with
  | Some d => d
  | None => ConfigIO.on_disk (Config.file (config (world p)))
  end.

(** A save overwrites what an outside edit left. *)
Definition after_save (before after : Config.t)
    (ed : option ConfigIO.content) : option ConfigIO.content :=
  if Nat.eqb (Config.saves after) (Config.saves before) then ed else None.

(** A step either lets the process go on or ends it with an exception that
    nothing catches; no cleanup runs then. *)
Inductive outcome :=
| Goes (p : process)
| Dies (p : process).

(** The start of [main]: build the [Config], apply the initial blocklist. *)
Definition startup (now : Z) (d : ConfigIO.content) (hosts0 : str) : outcome :=
  let c := ConfigIO.fresh Config.NoFile in
  match ConfigIO.load DEFAULT_BLOCKED d c with
  | ConfigIO.Raises =>
      Dies {| world := {| config := c; hosts := hosts0 |};
              edited := Some d;
              default_blocked := DEFAULT_BLOCKED;
              aliased := false;
              resolved_ips := [] |}
  | ConfigIO.Loaded c0 al =>
      let '(effective, c1) := Config.get_effective_blocklist now c0 in
      Goes {| world := {| config := c1;
                          hosts := HostsManager.apply_blocklist effective hosts0 |};
              edited := after_save c c1 (Some d);
              default_blocked := DEFAULT_BLOCKED;
              aliased := al;
              resolved_ips := [] |}
  end.

Definition is_status (r : response) : bool :=
  match r with
  | Status _ _ _ _ _ _ => true
  | _ => false
  end.

(** A POST request. When [blocked_sites] is the default list itself, the
    appends of [add_site] grow that list; [remove_site] binds a new list. *)
Definition post (e : env) (path : str) (b : body) (p : process) : process :=
  let '(r, w) := do_POST e path b (world p) in
  {| world := w;
     edited := after_save (config (world p)) (config w) (edited p);
     default_blocked :=
       if aliased p && str_eqb path (lit "/api/add_site")
       then Config.blocked_sites (config w) else default_blocked p;
     aliased :=
       aliased p && negb (str_eqb path (lit "/api/remove_site") && is_status r);
     resolved_ips := resolved_ips p |}.

(** A GET request. *)
Definition get (now : Z) (path : str) (p : process) : process :=
  let '(_, w) := StatusAPI.do_GET now path (world p) in
  {| world := w;
     edited := after_save (config (world p)) (config w) (edited p);
     default_blocked := default_blocked p;
     aliased := aliased p;
     resolved_ips := resolved_ips p |}.

(** The config file is changed from outside. *)
Definition edit (d : ConfigIO.content) (p : process) : process :=
  {| world := world p; edited := Some d;
     default_blocked := default_blocked p; aliased := aliased p;
     resolved_ips := resolved_ips p |}.

(** One round of the monitoring loop: [config.load()], the effective
    blocklist, [apply_blocklist], [resolve_sites], [log_status]. *)
Definition tick (t_apply t_log1 t_log2 : Z)
    (gethostbyname : nat -> str -> DNSMonitor.lookup) (p : process) : outcome :=
  match ConfigIO.load (default_blocked p) (disk p) (config (world p)) with
  | ConfigIO.Raises => Dies p
  | ConfigIO.Loaded c0 al =>
      let '(effective, c1) := Config.get_effective_blocklist t_apply c0 in
      let h := HostsManager.apply_blocklist effective (hosts (world p)) in
      let '(t, ended) :=
        DNSMonitor.resolve_sites gethostbyname (Config.blocked_sites c1)
                                 (resolved_ips p) in
      if ended then
        let '(_, c2) := DNSMonitor.log_status t_log1 t_log2 c1 in
        Goes {| world := {| config := c2; hosts := h |};
                edited := after_save (config (world p)) c2 (edited p);
                default_blocked := default_blocked p;
                aliased := al;
                resolved_ips := t |}
      else
        Dies {| world := {| config := c1; hosts := h |};
                edited := after_save (config (world p)) c1 (edited p);
                default_blocked := default_blocked p;
                aliased := al;
                resolved_ips := t |}
  end.

(** [cleanup]: clear the hosts entries, then save the config. *)
Definition cleanup (p : process) : process :=
  {| world := {| config := Config.save (config (world p));
                 hosts := HostsManager.clear (hosts (world p)) |};
     edited := None;
     default_blocked := default_blocked p;
     aliased := aliased p;
     resolved_ips := resolved_ips p |}.

Inductive event :=
| Post (e : env) (path : str) (b : body)
| Get (now : Z) (path : str)
| Tick (t_apply t_log1 t_log2 : Z)
       (gethostbyname : nat -> str -> DNSMonitor.lookup)
| Edit (d : ConfigIO.content).

Definition run_event (ev : event) (p : process) : outcome :=
  match ev with
  | Post e path b => Goes (post e path b p)
  | Get now path => Goes (get now path p)
  | Tick t1 t2 t3 g => tick t1 t2 t3 g p
  | Edit d => Goes (edit d p)
  end.

Fixpoint run_events (evs : list event) (p : process) : outcome :=
  match evs with
  | [] => Goes p
  | ev :: evs' =>
      match run_event ev p with
      | Goes p' => run_events evs' p'
      | Dies p' => Dies p'
      end
  end.

End Main.

(** ** More definitions used to state and prove the properties *)

(** The hostnames that [get_current_blocks] picks up, by recursion on the
    lines. *)
Fixpoint found (inside : bool) (lines : list str) : list str :=
  match lines with
  | [] => []
  | l :: ls =>
      if contains MARKER_START l then found true ls
      else if contains MARKER_END l then found false ls
      else if inside && negb (str_eqb (strip l) [])
      then match split_ws l with
           | _ :: p1 :: _ => p1 :: found inside ls
           | _ => found inside ls
           end
      else found inside ls
  end.

(** A hostname as one word: not empty and without white space. *)
Definition word (s : str) : Prop :=
  s <> [] /\ forallb (fun c => negb (isspace c)) s = true.

(** The config file holds the policy that is in memory. *)
Definition in_sync (c : Config.t) : Prop :=
  Config.file c = Config.JsonFile (Config.data_of c).

(** The calls that change or read the policy. *)
Inductive policy_call :=
| AddSite (first_site : bool) (raw : str)
| RemoveSite (raw : str)
| AddException (now : Z) (raw : str) (minutes : Z)
| RemoveException (raw : str)
| Toggle
| ActiveExceptions (now : Z)
| EffectiveBlocklist (now : Z).

Definition run_policy_call (k : policy_call) (c : Config.t) : Config.t :=
  match k with
  | AddSite first_site raw => Config.add_site first_site raw c
  | RemoveSite raw => Config.remove_site raw c
  | AddException now raw minutes => Config.add_exception now raw minutes c
  | RemoveException raw => Config.remove_exception raw c
  | Toggle => Config.save (Config.set_enabled (negb (Config.enabled c)) c)
  | ActiveExceptions now => snd (Config.get_active_exceptions now c)
  | EffectiveBlocklist now => snd (Config.get_effective_blocklist now c)
  end.

Definition run_policy_calls (ks : list policy_call) (c : Config.t) : Config.t :=
  fold_left (fun c k => run_policy_call k c) ks c.

Definition is_mutator (k : policy_call) : bool :=
  match k with
  | ActiveExceptions _ | EffectiveBlocklist _ => false
  | _ => true
  end.

(** A text that starts with a non-space character, or is empty. *)
Definition left_clean (s : str) : Prop :=
  match s with
  | [] => True
  | c :: _ => isspace c = false
  end.

(** What [get_current_blocks] takes from one line of the region:
    [parts = line.split()] and [parts[1]] when there are two parts. *)
Definition second_field (line : str) : list str :=
  match split_ws line with
  | _ :: p1 :: _ => [p1]
  | _ => []
  end.

(** No blocked hostname in a config file carries the end marker. *)
Definition content_plain (d : ConfigIO.content) : Prop :=
  match d with
  | ConfigIO.Object (Some blocked_sites) _ _ => plain_sites blocked_sites
  | _ => True
  end.

Definition event_plain (ev : Main.event) : Prop :=
  match ev with
  | Main.Edit d => content_plain d
  | _ => True
  end.

(** What every step of the process keeps, [hosts0] being the hosts file
    found at the start. *)
Definition process_ok (hosts0 : str) (p : Main.process) : Prop :=
  plain_sites (Config.blocked_sites (APIHandler.config (Main.world p)))
  /\ plain_sites (Main.default_blocked p)
  /\ (forall d, Main.edited p = Some d -> content_plain d)
  /\ content_plain
       (ConfigIO.on_disk (Config.file (APIHandler.config (Main.world p))))
  /\ HostsManager._strip_our_entries (APIHandler.hosts (Main.world p))
     = HostsManager._strip_our_entries hosts0.

(** The paths that [do_POST] knows. *)
Definition post_paths : list str := site_paths ++ [lit "/api/toggle"].

(** ** Facts about the string primitives *)

Section StrFacts.

Lemma str_eqb_eq (a b : str) : str_eqb a b = true <-> a = b.
Proof.
  unfold str_eqb. destruct (list_eq_dec ascii_dec a b); split; congruence.
Qed.

Lemma str_eqb_refl (a : str) : str_eqb a a = true.
Proof. now apply str_eqb_eq. Qed.

Lemma str_eqb_neq (a b : str) : str_eqb a b = false <-> a <> b.
Proof.
  unfold str_eqb. destruct (list_eq_dec ascii_dec a b); split; congruence.
Qed.

Lemma mem_In (x : str) (xs : list str) : mem x xs = true <-> In x xs.
Proof.
  unfold mem. rewrite existsb_exists. split.
  - intros (y & Hy & E). apply str_eqb_eq in E. now subst.
  - intros H. exists x. split; [assumption | apply str_eqb_refl].
Qed.

Lemma mem_not_In (x : str) (xs : list str) : mem x xs = false <-> ~ In x xs.
Proof.
  rewrite <- mem_In. destruct (mem x xs); split; congruence.
Qed.

Lemma startswith_spec (p s : str) :
  startswith p s = true <-> exists q, s = p ++ q.
Proof.
  revert s. induction p as [|a p IH]; intros s; simpl.
  - split; [intros _; now exists s | reflexivity].
  - destruct s as [|b s].
    + split; [discriminate | intros (q & E); discriminate].
    + rewrite andb_true_iff, Ascii.eqb_eq, IH. split.
      * intros (-> & q & ->). now exists q.
      * intros (q & E). injection E as -> ->. split; [reflexivity | now exists q].
Qed.

Lemma contains_spec (n h : str) :
  contains n h = true <-> exists p q, h = p ++ n ++ q.
Proof.
  induction h as [|c h IH].
  - simpl. rewrite orb_false_r, startswith_spec. split.
    + intros (q & E). now exists [], q.
    + intros (p & q & E). destruct p; [now exists q | discriminate].
  - simpl. rewrite orb_true_iff, startswith_spec, IH. split.
    + intros [(q & E) | (p & q & E)].
      * now exists [], q.
      * exists (c :: p), q. now rewrite E.
    + intros (p & q & E). destruct p as [|d p].
      * left. now exists q.
      * right. injection E as _ E. now exists p, q.
Qed.

(** A substring of a text without [n] is without [n]. *)
Lemma contains_false_infix (n a p b : str) :
  contains n (a ++ p ++ b) = false -> contains n p = false.
Proof.
  intros H. destruct (contains n p) eqn:E; [|reflexivity].
  apply contains_spec in E. destruct E as (u & v & ->).
  assert (contains n (a ++ (u ++ n ++ v) ++ b) = true) as K.
  { apply contains_spec. exists (a ++ u), (v ++ b).
    now rewrite <- !app_assoc. }
  congruence.
Qed.

Lemma contains_skip (f c : ascii) (n h : str) :
  c <> f -> contains (f :: n) (c :: h) = contains (f :: n) h.
Proof.
  intros Hc. cbn [contains startswith].
  destruct (Ascii.eqb f c) eqn:E.
  - apply Ascii.eqb_eq in E. congruence.
  - reflexivity.
Qed.

Lemma split_nl_nonempty (s : str) : split_nl s <> [].
Proof.
  induction s as [|c s IH]; simpl; [discriminate|].
  destruct (Ascii.eqb c newline); [discriminate|].
  destruct (split_nl s); [contradiction | discriminate].
Qed.

Lemma split_nl_app (a b : str) :
  split_nl (a ++ newline :: b) = split_nl a ++ split_nl b.
Proof.
  induction a as [|c a IH]; [reflexivity|].
  simpl. destruct (Ascii.eqb c newline); [now rewrite IH|].
  rewrite IH. pose proof (split_nl_nonempty a) as Hn.
  destruct (split_nl a); [contradiction | reflexivity].
Qed.

Lemma split_nl_no_nl (s : str) : ~ In newline s -> split_nl s = [s].
Proof.
  induction s as [|c s IH]; intros H; simpl; [reflexivity|].
  destruct (Ascii.eqb c newline) eqn:E.
  - apply Ascii.eqb_eq in E. subst. exfalso. apply H. now left.
  - rewrite IH; [reflexivity | intros K; apply H; now right].
Qed.

Lemma split_nl_lines (s : str) : Forall (fun l => ~ In newline l) (split_nl s).
Proof.
  induction s as [|c s IH]; simpl.
  - constructor; [intros [] | constructor].
  - destruct (Ascii.eqb c newline) eqn:E.
    + constructor; [intros [] | assumption].
    + destruct (split_nl s) as [|l ls]; [constructor; [|constructor]|].
      * intros [K|[]]. subst. now rewrite Ascii.eqb_refl in E.
      * inversion IH; subst. constructor; [|assumption].
        intros [K|K]; [|contradiction].
        subst. now rewrite Ascii.eqb_refl in E.
Qed.

(** The first piece is a prefix of the text. *)
Lemma split_nl_head (s l : str) (ls : list str) :
  split_nl s = l :: ls -> exists r, s = l ++ r.
Proof.
  revert l ls. induction s as [|c s IH]; simpl; intros l ls H.
  - injection H as <- <-. now exists [].
  - destruct (Ascii.eqb c newline).
    + injection H as <- <-. now exists (c :: s).
    + destruct (split_nl s) as [|l2 ls2] eqn:Es.
      * now apply split_nl_nonempty in Es.
      * injection H as <- <-.
        destruct (IH _ _ eq_refl) as (r & ->). now exists r.
Qed.

(** Every piece of [split_nl s] is a substring of [s]. *)
Lemma split_nl_infix (s l : str) :
  In l (split_nl s) -> exists a b, s = a ++ l ++ b.
Proof.
  revert l. induction s as [|c s IH]; intros l; simpl.
  - intros [<-|[]]. now exists [], [].
  - destruct (Ascii.eqb c newline) eqn:E.
    + intros [<-|H].
      * now exists [], (c :: s).
      * destruct (IH _ H) as (a & b & ->). now exists (c :: a), b.
    + destruct (split_nl s) as [|l0 ls] eqn:Es.
      * now apply split_nl_nonempty in Es.
      * intros [<-|H].
        -- destruct (split_nl_head _ _ _ Es) as (r & ->). now exists [], r.
        -- destruct (IH l (or_intror H)) as (a & b & ->). now exists (c :: a), b.
Qed.

End StrFacts.

(** ** Facts about joining and splitting lines *)

Section Lines.

Lemma join_nl_cons (l : str) (ls : list str) :
  ls <> [] -> join_nl (l :: ls) = l ++ newline :: join_nl ls.
Proof. destruct ls; [contradiction | reflexivity]. Qed.

Lemma join_nl_app (a b : list str) :
  a <> [] -> b <> [] -> join_nl (a ++ b) = join_nl a ++ newline :: join_nl b.
Proof.
  intros Ha Hb. induction a as [|l a IH]; [contradiction|].
  destruct a as [|l' a].
  - simpl app. now rewrite join_nl_cons.
  - change ((l :: l' :: a) ++ b) with (l :: (l' :: a) ++ b).
    rewrite join_nl_cons by discriminate.
    rewrite IH by discriminate.
    rewrite (join_nl_cons l (l' :: a)) by discriminate.
    now rewrite <- app_assoc.
Qed.

Lemma join_nl_snoc_empty (a : list str) :
  a <> [] -> join_nl (a ++ [[]]) = join_nl a ++ [newline].
Proof. intros Ha. now rewrite join_nl_app by (assumption || discriminate). Qed.

Lemma split_join (ls : list str) :
  ls <> [] -> split_nl (join_nl ls) = List.concat (map split_nl ls).
Proof.
  intros Hn. induction ls as [|l ls IH]; [contradiction|].
  destruct ls as [|l' ls].
  - simpl. now rewrite app_nil_r.
  - rewrite join_nl_cons by discriminate.
    rewrite split_nl_app, IH by discriminate. reflexivity.
Qed.

Lemma concat_split_lines (ls : list str) :
  Forall (fun l => ~ In newline l) ls -> List.concat (map split_nl ls) = ls.
Proof.
  induction 1 as [|l ls Hl _ IH]; [reflexivity|].
  simpl. now rewrite split_nl_no_nl, IH.
Qed.

Lemma split_join_lines (ls : list str) :
  ls <> [] -> Forall (fun l => ~ In newline l) ls ->
  split_nl (join_nl ls) = ls.
Proof. intros Hn Hl. now rewrite split_join, concat_split_lines. Qed.

End Lines.

(** ** Facts about the loop of [_strip_our_entries] *)

Section StripLoop.

Import HostsManager.

Lemma fold_strip_step (lines : list str) (inside : bool) (acc : list str) :
  fold_left strip_step lines (inside, acc)
  = (final_inside inside lines, acc ++ kept inside lines).
Proof.
  revert inside acc. induction lines as [|l ls IH]; intros inside acc.
  - simpl. now rewrite app_nil_r.
  - simpl. destruct (contains MARKER_START l); [apply IH|].
    destruct (contains MARKER_END l); [apply IH|].
    destruct inside; simpl; rewrite IH; [reflexivity|].
    now rewrite <- app_assoc.
Qed.

Lemma strip_outside (content : str) :
  _strip_our_entries content = join_nl (outside_lines content).
Proof.
  unfold _strip_our_entries, outside_lines. now rewrite fold_strip_step.
Qed.

Lemma kept_app (b : bool) (l1 l2 : list str) :
  kept b (l1 ++ l2) = kept b l1 ++ kept (final_inside b l1) l2.
Proof.
  revert b. induction l1 as [|l l1 IH]; intros b; [reflexivity|].
  simpl. destruct (contains MARKER_START l); [apply IH|].
  destruct (contains MARKER_END l); [apply IH|].
  destruct b; [apply IH|]. simpl. now rewrite IH.
Qed.

Lemma final_inside_app (b : bool) (l1 l2 : list str) :
  final_inside b (l1 ++ l2) = final_inside (final_inside b l1) l2.
Proof.
  revert b. induction l1 as [|l l1 IH]; intros b; [reflexivity|].
  simpl. destruct (contains MARKER_START l); [apply IH|].
  destruct (contains MARKER_END l); apply IH.
Qed.

Lemma kept_outer (ls : list str) :
  Forall outer_line ls -> kept false ls = ls /\ final_inside false ls = false.
Proof.
  induction 1 as [|l ls (_ & Hs & He) _ (IH1 & IH2)]; [now split|].
  simpl. rewrite Hs, He, IH1, IH2. now split.
Qed.

Lemma kept_inner (ls : list str) :
  Forall (fun l => contains MARKER_END l = false) ls ->
  kept true ls = [] /\ final_inside true ls = true.
Proof.
  induction 1 as [|l ls He _ (IH1 & IH2)]; [now split|].
  simpl. rewrite He. destruct (contains MARKER_START l); now split.
Qed.

(** The loop keeps only lines without a marker. *)
Lemma kept_clean (b : bool) (ls : list str) :
  Forall (fun l => contains MARKER_START l = false
                   /\ contains MARKER_END l = false) (kept b ls).
Proof.
  revert b. induction ls as [|l ls IH]; intros b; simpl; [constructor|].
  destruct (contains MARKER_START l) eqn:Es; [apply IH|].
  destruct (contains MARKER_END l) eqn:Ee; [apply IH|].
  destruct b; [apply IH|]. constructor; [now split | apply IH].
Qed.

Lemma kept_incl (b : bool) (ls : list str) : incl (kept b ls) ls.
Proof.
  revert b. induction ls as [|l ls IH]; intros b; simpl; [easy|].
  destruct (contains MARKER_START l); [now apply incl_tl|].
  destruct (contains MARKER_END l); [now apply incl_tl|].
  destruct b; [now apply incl_tl|].
  apply incl_cons; [now left | now apply incl_tl].
Qed.

Lemma pop_blank_front_suffix (rs : list str) :
  exists t, rs = t ++ pop_blank_front rs.
Proof.
  induction rs as [|l rs (t & IH)]; [now exists []|].
  simpl. destruct (strip l).
  - exists (l :: t). simpl. now rewrite <- IH.
  - now exists [].
Qed.

Lemma pop_blank_front_idem (rs : list str) :
  pop_blank_front (pop_blank_front rs) = pop_blank_front rs.
Proof.
  induction rs as [|l rs IH]; [reflexivity|].
  simpl. destruct (strip l) eqn:E; [assumption|].
  simpl. now rewrite E.
Qed.

Lemma pop_trailing_blank_prefix (rs : list str) :
  exists t, rs = pop_trailing_blank rs ++ t.
Proof.
  unfold pop_trailing_blank.
  destruct (pop_blank_front_suffix (rev rs)) as (t & E).
  exists (rev t). rewrite <- rev_app_distr, <- E. now rewrite rev_involutive.
Qed.

Lemma pop_trailing_blank_idem (rs : list str) :
  pop_trailing_blank (pop_trailing_blank rs) = pop_trailing_blank rs.
Proof.
  unfold pop_trailing_blank.
  now rewrite rev_involutive, pop_blank_front_idem.
Qed.

Lemma pop_trailing_blank_snoc_empty (rs : list str) :
  pop_trailing_blank (rs ++ [[]]) = pop_trailing_blank rs.
Proof. unfold pop_trailing_blank. now rewrite rev_app_distr. Qed.

Lemma Forall_pop_trailing_blank (P : str -> Prop) (rs : list str) :
  Forall P rs -> Forall P (pop_trailing_blank rs).
Proof.
  intros H. destruct (pop_trailing_blank_prefix rs) as (t & E).
  rewrite E in H. now apply Forall_app in H.
Qed.

Lemma outside_lines_outer (content : str) :
  Forall outer_line (outside_lines content).
Proof.
  unfold outside_lines. apply Forall_pop_trailing_blank.
  apply Forall_forall. intros l Hl. split.
  - pose proof (split_nl_lines content) as H.
    rewrite Forall_forall in H. apply H. now apply (kept_incl false).
  - pose proof (kept_clean false (split_nl content)) as H.
    rewrite Forall_forall in H. now apply H.
Qed.

Lemma outside_lines_settled (content : str) :
  pop_trailing_blank (outside_lines content) = outside_lines content.
Proof. apply pop_trailing_blank_idem. Qed.

End StripLoop.

(** ** Stripping what [apply_blocklist] wrote *)

Section StripBlock.

Import HostsManager.

Lemma site_line_end (site : str) :
  contains MARKER_END (site_line site) = contains MARKER_END site.
Proof.
  unfold site_line, MARKER_END, REDIRECT_IP, lit.
  cbn [list_ascii_of_string app].
  repeat (rewrite contains_skip by discriminate). reflexivity.
Qed.

Lemma site_pieces_inner (sites : list str) :
  plain_sites sites ->
  Forall (fun l => contains MARKER_END l = false)
         (List.concat (map split_nl (map site_line sites))).
Proof.
  induction 1 as [|s sites Hs _ IH]; [constructor|].
  rewrite !map_cons, concat_cons. apply Forall_app. split; [|assumption].
  apply Forall_forall. intros l Hl.
  destruct (split_nl_infix _ _ Hl) as (a & b & E).
  apply (contains_false_infix _ a l b). rewrite <- E.
  now rewrite site_line_end.
Qed.

Lemma join_as_lines (rs : list str) : join_nl (as_lines rs) = join_nl rs.
Proof. now destruct rs. Qed.

Lemma as_lines_nonempty (rs : list str) : as_lines rs <> [].
Proof. now destruct rs. Qed.

Lemma as_lines_outer (rs : list str) :
  Forall outer_line rs -> Forall outer_line (as_lines rs).
Proof.
  destruct rs; [|easy]. intros _. constructor; [|constructor].
  split; [intros [] | split; reflexivity].
Qed.

Lemma pop_as_lines (rs : list str) :
  pop_trailing_blank rs = rs -> pop_trailing_blank (as_lines rs) = rs.
Proof. now destruct rs. Qed.

Lemma strip_settled (rs : list str) :
  Forall outer_line rs -> pop_trailing_blank rs = rs ->
  _strip_our_entries (join_nl rs) = join_nl rs.
Proof.
  intros Ho Hp. rewrite strip_outside. unfold outside_lines.
  rewrite <- (join_as_lines rs) at 1.
  pose proof (as_lines_outer _ Ho) as Ho'.
  rewrite split_join_lines;
    [| apply as_lines_nonempty
     | eapply Forall_impl; [|exact Ho']; now intros l (H & _)].
  destruct (kept_outer _ Ho') as (-> & _).
  now rewrite pop_as_lines.
Qed.

Lemma render_block_lines (rs sites : list str) :
  join_nl rs ++ render_block sites
  = join_nl (as_lines rs
             ++ MARKER_START :: map site_line sites ++ [MARKER_END; []]).
Proof.
  set (inner := map site_line sites ++ [MARKER_END]).
  assert (inner <> []) as Hn by (subst inner; now destruct (map site_line sites)).
  change (render_block sites)
    with (join_nl ((newline :: MARKER_START) :: inner) ++ [newline]).
  replace (map site_line sites ++ [MARKER_END; []]) with (inner ++ [[]])
    by (subst inner; now rewrite <- app_assoc).
  rewrite (join_nl_app (as_lines rs) (MARKER_START :: inner ++ [[]]))
    by (apply as_lines_nonempty || discriminate).
  rewrite join_as_lines. f_equal.
  rewrite (join_nl_cons _ inner) by assumption.
  rewrite (join_nl_cons MARKER_START (inner ++ [[]]))
    by (now destruct inner).
  rewrite join_nl_snoc_empty by assumption.
  change ((newline :: MARKER_START) ++ newline :: join_nl inner)
    with (newline :: (MARKER_START ++ newline :: join_nl inner)).
  change ((newline :: ?x) ++ [newline]) with (newline :: (x ++ [newline])).
  now rewrite <- app_assoc.
Qed.

Lemma strip_with_block (rs sites : list str) :
  Forall outer_line rs -> pop_trailing_blank rs = rs -> plain_sites sites ->
  _strip_our_entries (join_nl rs ++ render_block sites) = join_nl rs.
Proof.
  intros Ho Hp Hs. rewrite render_block_lines, strip_outside.
  unfold outside_lines. f_equal.
  rewrite split_join by (pose proof (as_lines_nonempty rs); now destruct (as_lines rs)).
  pose proof (as_lines_outer _ Ho) as Ho'.
  rewrite map_app, concat_app.
  rewrite concat_split_lines
    by (eapply Forall_impl; [|exact Ho']; now intros l (H & _)).
  rewrite kept_app. destruct (kept_outer _ Ho') as (-> & ->).
  change (map split_nl (MARKER_START :: map site_line sites ++ [MARKER_END; []]))
    with (split_nl MARKER_START
          :: map split_nl (map site_line sites ++ [MARKER_END; []])).
  rewrite map_app, concat_cons, concat_app.
  change (split_nl MARKER_START) with [MARKER_START].
  change (kept false ([MARKER_START] ++ ?x)) with (kept true x).
  rewrite kept_app.
  destruct (kept_inner _ (site_pieces_inner _ Hs)) as (-> & ->).
  change (kept true (List.concat (map split_nl [MARKER_END; []]))) with [([] : str)].
  simpl app. rewrite pop_trailing_blank_snoc_empty. now apply pop_as_lines.
Qed.

(** Stripping undoes whatever [apply_blocklist] appended. *)
Lemma strip_apply (sites : list str) (content : str) :
  plain_sites sites ->
  _strip_our_entries (apply_blocklist sites content)
  = _strip_our_entries content.
Proof.
  intros Hs. unfold apply_blocklist. rewrite (strip_outside content).
  destruct sites as [|s sites].
  - apply strip_settled;
      [apply outside_lines_outer | apply outside_lines_settled].
  - apply strip_with_block;
      [apply outside_lines_outer | apply outside_lines_settled | assumption].
Qed.

Lemma apply_blocklist_text (sites : list str) (content : str) :
  apply_blocklist sites content
  = _strip_our_entries content ++ block_text sites.
Proof.
  unfold apply_blocklist, block_text. destruct sites; [|reflexivity].
  now rewrite app_nil_r.
Qed.

End StripBlock.

(** ** Normalized hostnames never carry the end marker *)

Section Normalized.

Lemma lower_char_not_S (c : ascii) : lower_char c <> "S"%char.
Proof.
  destruct c as [b0 b1 b2 b3 b4 b5 b6 b7].
  destruct b0, b1, b2, b3, b4, b5, b6, b7; vm_compute; discriminate.
Qed.

Lemma lstrip_incl (s : str) : incl (lstrip s) s.
Proof.
  induction s as [|c s IH]; [easy|].
  simpl. destruct (isspace c); [now apply incl_tl | apply incl_refl].
Qed.

Lemma strip_incl (s : str) : incl (strip s) s.
Proof.
  unfold strip, rstrip. intros x Hx.
  apply lstrip_incl. apply in_rev. apply (lstrip_incl (rev (lstrip s))).
  now apply in_rev in Hx.
Qed.

Lemma normalize_plain (raw : str) :
  contains MARKER_END (Config.normalize raw) = false.
Proof.
  destruct (contains MARKER_END (Config.normalize raw)) eqn:E; [|reflexivity].
  apply contains_spec in E. destruct E as (p & q & E).
  assert (In "S"%char (Config.normalize raw)) as H.
  { rewrite E. apply in_or_app. right. apply in_or_app. left.
    vm_compute. tauto. }
  apply strip_incl in H. unfold lower in H. apply in_map_iff in H.
  destruct H as (c & Hc & _). now apply lower_char_not_S in Hc.
Qed.

End Normalized.

(** ** Properties of the hosts patcher *)

(** Closes [~ In newline l] for a closed line [l]. *)
Ltac no_newline :=
  let K := fresh "K" in
  intros K; vm_compute in K;
  repeat (destruct K as [K|K]; [discriminate K|]); exact K.

Section HostsPatcher.

Import HostsManager.

(** A file whose region is delimited by any line that contains the start
    marker and any later line that contains the end marker (and not the
    start marker): stripping leaves the lines around the region. *)
Lemma strip_region (pre body post : list str) (s_line e_line : str) :
  Forall outer_line pre -> Forall inner_line body -> Forall outer_line post ->
  ~ In newline s_line -> contains MARKER_START s_line = true ->
  ~ In newline e_line -> contains MARKER_START e_line = false ->
  contains MARKER_END e_line = true ->
  _strip_our_entries (join_nl (pre ++ s_line :: body ++ e_line :: post))
  = join_nl (pop_trailing_blank (pre ++ post)).
Proof.
  intros Hpre Hbody Hpost Hsn Hs Hen Hes Hee.
  rewrite strip_outside. unfold outside_lines. f_equal. f_equal.
  rewrite split_join_lines.
  - rewrite kept_app. destruct (kept_outer _ Hpre) as (-> & ->).
    f_equal. simpl. rewrite Hs, kept_app.
    assert (Forall (fun l => contains MARKER_END l = false) body) as Hb
      by (eapply Forall_impl; [|exact Hbody]; now intros l (_ & H)).
    destruct (kept_inner _ Hb) as (-> & ->).
    simpl. rewrite Hes, Hee. now destruct (kept_outer _ Hpost) as (-> & _).
  - now destruct pre.
  - apply Forall_app. split.
    + eapply Forall_impl; [|exact Hpre]. now intros l (H & _).
    + constructor; [assumption|]. apply Forall_app. split.
      * eapply Forall_impl; [|exact Hbody]. now intros l (H & _).
      * constructor; [assumption|].
        eapply Forall_impl; [|exact Hpost]. now intros l (H & _).
Qed.

(** A file without any marker: stripping only drops the trailing blank
    lines and the final newline. *)
Lemma strip_no_region (lines : list str) :
  Forall outer_line lines ->
  _strip_our_entries (join_nl lines) = join_nl (pop_trailing_blank lines).
Proof.
  intros Ho. destruct lines as [|l ls]; [reflexivity|].
  rewrite strip_outside. unfold outside_lines.
  rewrite split_join_lines;
    [| discriminate | eapply Forall_impl; [|exact Ho]; now intros x (H & _)].
  now destruct (kept_outer _ Ho) as (-> & _).
Qed.

Lemma run_calls_snoc (ks : list hosts_call) (k : hosts_call) (content : str) :
  run_calls (ks ++ [k]) content = run_call k (run_calls ks content).
Proof. unfold run_calls. now rewrite fold_left_app. Qed.

Lemma strip_run_call (k : hosts_call) (content : str) :
  plain_sites (call_sites k) ->
  _strip_our_entries (run_call k content) = _strip_our_entries content.
Proof.
  destruct k as [sites|]; simpl; intros H.
  - now apply strip_apply.
  - apply (strip_apply [] content). constructor.
Qed.

Lemma strip_run_calls (ks : list hosts_call) (content : str) :
  Forall (fun k => plain_sites (call_sites k)) ks ->
  _strip_our_entries (run_calls ks content) = _strip_our_entries content.
Proof.
  induction ks as [|k ks IH] using rev_ind; intros H; [reflexivity|].
  apply Forall_app in H. destruct H as (Hks & Hk).
  rewrite run_calls_snoc, strip_run_call by (now inversion Hk).
  now apply IH.
Qed.

Lemma run_call_text (k : hosts_call) (content : str) :
  run_call k content = _strip_our_entries content ++ block_text (call_sites k).
Proof.
  destruct k as [sites|]; simpl.
  - apply apply_blocklist_text.
  - unfold clear. now rewrite app_nil_r.
Qed.

(** C1: for every list of hostnames (none of which carries the end-marker
    text), calling [apply_blocklist] a second time on the file that the first
    call wrote writes exactly the same content again. *)
Theorem apply_blocklist_idempotent (sites : list str) (content : str) :
  plain_sites sites ->
  apply_blocklist sites (apply_blocklist sites content)
  = apply_blocklist sites content.
Proof.
  intros Hs.
  rewrite (apply_blocklist_text sites (apply_blocklist sites content)).
  rewrite strip_apply by assumption.
  symmetry. apply apply_blocklist_text.
Qed.

Lemma apply_blocklist_idempotent_witness :
  let sites := [lit "x.com"; lit "www.x.com"] in
  let content := text ["127.0.0.1 localhost"; EmptyString; "# local"; EmptyString]%string in
  plain_sites sites /\
  apply_blocklist sites (apply_blocklist sites content)
  = apply_blocklist sites content.
Proof.
  split.
  - repeat constructor.
  - apply (apply_blocklist_idempotent
             [lit "x.com"; lit "www.x.com"]
             (text ["127.0.0.1 localhost"; EmptyString; "# local"; EmptyString]%string)).
    repeat constructor.
Defined.

(** The restriction on the hostnames is needed: a "hostname" that carries
    the end marker closes the region early on the next read. *)
Example apply_blocklist_marker_site :
  let sites := [MARKER_END; lit "x.com"] in
  apply_blocklist sites (apply_blocklist sites [])
  <> apply_blocklist sites [].
Proof. vm_compute. discriminate. Qed.

(** C2, as amended: after any non-empty sequence of [apply_blocklist] and
    [clear] calls the file is the stripped initial content followed by the
    block of the last call; the stripped content is made of the lines
    outside the region, in order and unchanged, joined by newlines, without
    the trailing blank lines and without a final newline. *)
Theorem outside_lines_preserved (ks : list hosts_call) (k : hosts_call) :
  Forall (fun k => plain_sites (call_sites k)) (ks ++ [k]) ->
  (forall content,
     run_calls (ks ++ [k]) content
     = _strip_our_entries content ++ block_text (call_sites k))
  /\ (forall pre body post,
        Forall outer_line pre -> Forall inner_line body ->
        Forall outer_line post ->
        _strip_our_entries
          (join_nl (pre ++ MARKER_START :: body ++ MARKER_END :: post))
        = join_nl (pop_trailing_blank (pre ++ post)))
  /\ (forall lines,
        Forall outer_line lines ->
        _strip_our_entries (join_nl lines)
        = join_nl (pop_trailing_blank lines)).
Proof.
  intros H. apply Forall_app in H. destruct H as (Hks & Hk).
  split; [|split].
  - intros content. rewrite run_calls_snoc, run_call_text.
    now rewrite strip_run_calls.
  - intros pre body post Hpre Hbody Hpost.
    apply strip_region; try assumption; try reflexivity.
    + no_newline.
    + no_newline.
  - apply strip_no_region.
Qed.

Lemma outside_lines_preserved_witness :
  let ks := [Apply [lit "x.com"]; Clear] in
  let k := Apply [lit "y.com"; lit "www.y.com"] in
  Forall (fun k => plain_sites (call_sites k)) (ks ++ [k]) /\
  forall content,
    run_calls (ks ++ [k]) content
    = _strip_our_entries content ++ block_text (call_sites k).
Proof.
  assert (Forall (fun k => plain_sites (call_sites k))
            ([Apply [lit "x.com"]; Clear]
             ++ [Apply [lit "y.com"; lit "www.y.com"]])) as H
    by (repeat constructor).
  split; [exact H|].
  exact (proj1 (outside_lines_preserved
                  [Apply [lit "x.com"]; Clear]
                  (Apply [lit "y.com"; lit "www.y.com"]) H)).
Defined.

(** C2 fails as stated: with text before and after the region, no region
    text makes the file after one [apply_blocklist] equal to the same text
    before and after it. The text after the region is moved in front of
    the new region and loses its trailing blank line. *)
Lemma surrounding_text_not_preserved :
  let before := text ["127.0.0.1 localhost"]%string in
  let region := text ["# === SITE BLOCKER START ===";
                      "127.0.0.1  x.com";
                      "# === SITE BLOCKER END ==="]%string in
  let after := text ["::1 ip6-localhost"; EmptyString]%string in
  ~ exists region',
      apply_blocklist [lit "x.com"] (before ++ region ++ after)
      = before ++ region' ++ after.
Proof.
  intros before region after (region' & H).
  apply (f_equal (@rev ascii)) in H.
  rewrite !rev_app_distr in H.
  subst before region after. vm_compute in H. discriminate H.
Qed.

(** With no region in the file, a single [clear] already changes it: the
    final newline is dropped. *)
Example clear_drops_final_newline :
  clear (text ["127.0.0.1 localhost"]%string) = lit "127.0.0.1 localhost".
Proof. reflexivity. Qed.

(** [get_current_blocks] reads the hostnames between such lines too. *)
Example get_current_blocks_decorated_markers :
  get_current_blocks
    (join_nl [lit "127.0.0.1 localhost";
              lit "x " ++ MARKER_START ++ lit " y";
              lit "10.0.0.1  evil.example";
              lit "<<" ++ MARKER_END ++ lit ">>";
              lit "10.0.0.2  other.example"])
  = [lit "evil.example"].
Proof. reflexivity. Qed.

End HostsPatcher.

(** ** Facts about the policy store *)

Section PolicyStore.

Import Config.

Lemma exc_eqb_eq (a b : exception) : exc_eqb a b = true <-> a = b.
Proof.
  unfold exc_eqb. rewrite andb_true_iff, str_eqb_eq, Z.eqb_eq.
  destruct a, b; simpl. split.
  - now intros (-> & ->).
  - intros E. now injection E.
Qed.

Lemma exc_mem_In (e : exception) (es : list exception) :
  exc_mem e es = true <-> In e es.
Proof.
  unfold exc_mem. rewrite existsb_exists. split.
  - intros (x & Hx & E). apply exc_eqb_eq in E. now subst.
  - intros H. exists e. split; [assumption | now apply exc_eqb_eq].
Qed.

Lemma save_fields (c : t) :
  blocked_sites (save c) = blocked_sites c
  /\ exceptions (save c) = exceptions c
  /\ enabled (save c) = enabled c
  /\ file (save c) = JsonFile (data_of c)
  /\ saves (save c) = S (saves c).
Proof. now repeat split. Qed.

Lemma expired_at_ltb (now : Z) (e : exception) :
  expired_at now e = negb (now <? until e)%Z.
Proof. unfold expired_at. apply Z.leb_antisym. Qed.

(** The loop of [get_active_exceptions] sorts the entries by expiry. *)
Lemma fold_sort_exception (now : Z) (es : list exception)
    (active : list str) (expired : list exception) :
  fold_left (sort_exception now) es (active, expired)
  = (active ++ map site (filter (fun e => negb (expired_at now e)) es),
     expired ++ filter (expired_at now) es).
Proof.
  revert active expired. induction es as [|e es IH]; intros active expired.
  - simpl. now rewrite !app_nil_r.
  - cbn [fold_left filter]. rewrite (expired_at_ltb now e).
    unfold sort_exception at 2.
    destruct (now <? until e)%Z; cbn [negb map];
      rewrite IH, <- app_assoc; reflexivity.
Qed.

(** Dropping the entries that are equal to an expired one drops exactly
    the expired ones. *)
Lemma filter_not_expired (now : Z) (es : list exception) :
  filter (fun e => negb (exc_mem e (filter (expired_at now) es))) es
  = filter (fun e => negb (expired_at now e)) es.
Proof.
  apply filter_ext_in. intros e He. f_equal.
  destruct (expired_at now e) eqn:E.
  - apply exc_mem_In, filter_In. now split.
  - destruct (exc_mem e (filter (expired_at now) es)) eqn:M; [|reflexivity].
    apply exc_mem_In, filter_In in M. destruct M as (_ & M). congruence.
Qed.

Lemma filter_nil_iff {A} (f : A -> bool) (l : list A) :
  filter f l = [] <-> existsb f l = false.
Proof.
  induction l as [|x l IH]; simpl; [easy|].
  destruct (f x); simpl; [easy | exact IH].
Qed.

Lemma get_active_exceptions_eq (now : Z) (c : t) :
  get_active_exceptions now c
  = (map site (filter (fun e => negb (expired_at now e)) (exceptions c)),
     if existsb (expired_at now) (exceptions c)
     then save (set_exceptions
                  (filter (fun e => negb (expired_at now e)) (exceptions c)) c)
     else c).
Proof.
  unfold get_active_exceptions. rewrite fold_sort_exception. simpl app.
  destruct (filter (expired_at now) (exceptions c)) as [|x xs] eqn:E.
  - apply filter_nil_iff in E. now rewrite E.
  - assert (existsb (expired_at now) (exceptions c) = true) as ->.
    { destruct (existsb (expired_at now) (exceptions c)) eqn:X; [reflexivity|].
      apply filter_nil_iff in X. congruence. }
    rewrite <- E, filter_not_expired. reflexivity.
Qed.

Lemma mem_active_sites (now : Z) (es : list exception) (s : str) :
  mem s (map site (filter (fun e => negb (expired_at now e)) es))
  = has_active_exception now es s.
Proof.
  induction es as [|e es IH]; [reflexivity|].
  cbn [filter existsb has_active_exception]. rewrite (expired_at_ltb now e).
  fold (has_active_exception now es s).
  destruct (now <? until e)%Z; cbn [negb map mem existsb].
  - fold (mem s (map site (filter (fun e => negb (expired_at now e)) es))).
    rewrite IH. f_equal. rewrite andb_true_r.
    unfold str_eqb.
    destruct (list_eq_dec ascii_dec s (site e)),
             (list_eq_dec ascii_dec (site e) s); congruence.
  - fold (mem s (map site (filter (fun e => negb (expired_at now e)) es))).
    now rewrite IH, andb_false_r.
Qed.

Lemma get_effective_blocklist_eq (now : Z) (c : t) :
  get_effective_blocklist now c
  = (effective_block_set now c,
     if enabled c then snd (get_active_exceptions now c) else c).
Proof.
  unfold get_effective_blocklist, effective_block_set.
  destruct (enabled c); simpl; [|reflexivity].
  rewrite get_active_exceptions_eq. simpl. f_equal.
  assert (blocked_sites
            (if existsb (expired_at now) (exceptions c)
             then save (set_exceptions
                          (filter (fun e => negb (expired_at now e))
                                  (exceptions c)) c)
             else c) = blocked_sites c) as ->
    by (now destruct (existsb (expired_at now) (exceptions c))).
  apply filter_ext. intros s. now rewrite mem_active_sites.
Qed.

(** C3: [get_effective_blocklist] returns the empty list when disabled,
    and otherwise the blocked sites, in stored order, that have no
    exception whose expiry is strictly later than the current time. *)
Theorem get_effective_blocklist_spec (now : Z) (c : t) :
  fst (get_effective_blocklist now c) = effective_block_set now c
  /\ (enabled c = false -> fst (get_effective_blocklist now c) = [])
  /\ (enabled c = true ->
      forall s,
        In s (fst (get_effective_blocklist now c))
        <-> In s (blocked_sites c)
            /\ forall e, In e (exceptions c) -> site e = s ->
                         (until e <= now)%Z).
Proof.
  rewrite get_effective_blocklist_eq. simpl. split; [reflexivity|]. split.
  - intros E. unfold effective_block_set. now rewrite E.
  - intros E s. unfold effective_block_set. rewrite E, filter_In.
    apply and_iff_compat_l.
    rewrite negb_true_iff. unfold has_active_exception. split.
    + intros H e He Es. apply Z.nlt_ge. intros Hlt.
      assert (existsb (fun e => str_eqb (site e) s && (now <? until e)%Z)
                      (exceptions c) = true) as K; [|congruence].
      apply existsb_exists. exists e. split; [assumption|].
      apply andb_true_iff. split; [now apply str_eqb_eq | now apply Z.ltb_lt].
    + intros H.
      destruct (existsb _ (exceptions c)) eqn:X; [|reflexivity].
      apply existsb_exists in X. destruct X as (e & He & X).
      apply andb_true_iff in X. destruct X as (Es & Hlt).
      apply str_eqb_eq in Es. apply Z.ltb_lt in Hlt.
      specialize (H e He Es). lia.
Qed.

Lemma get_effective_blocklist_spec_witness :
  let c := {| blocked_sites := [lit "x.com"; lit "www.x.com"];
              exceptions := [{| site := lit "x.com"; until := 100 |}];
              enabled := false; file := NoFile; saves := 0 |} in
  enabled c = false /\ fst (get_effective_blocklist 5 c) = [].
Proof.
  split; [reflexivity|].
  apply (get_effective_blocklist_spec 5
           {| blocked_sites := [lit "x.com"; lit "www.x.com"];
              exceptions := [{| site := lit "x.com"; until := 100 |}];
              enabled := false; file := NoFile; saves := 0 |}).
  reflexivity.
Defined.

Lemma filter_length_lt {A} (f : A -> bool) (l : list A) :
  existsb (fun x => negb (f x)) l = true <->
  (List.length (filter f l) < List.length l)%nat.
Proof.
  induction l as [|x l IH]; simpl; [split; [discriminate | lia]|].
  pose proof (filter_length_le f l) as Hle.
  destruct (f x); simpl.
  - rewrite IH. lia.
  - split; [lia | reflexivity].
Qed.

(** C4, as amended: when [enabled] is true, [get_effective_blocklist]
    first prunes the expired exceptions, so that afterwards every stored
    exception expires strictly later than now, and it saves exactly when at
    least one exception was removed; when [enabled] is false it returns at
    once and neither prunes nor saves. *)
Theorem get_effective_blocklist_prunes (now : Z) (c : t) :
  let c' := snd (get_effective_blocklist now c) in
  (enabled c = true ->
     exceptions c' = filter (fun e => negb (expired_at now e)) (exceptions c)
     /\ Forall (fun e => (now < until e)%Z) (exceptions c')
     /\ blocked_sites c' = blocked_sites c /\ enabled c' = enabled c
     /\ (saves c' = S (saves c) \/ saves c' = saves c)
     /\ (saves c' = S (saves c)
         <-> (List.length (exceptions c') < List.length (exceptions c))%nat)
     /\ (saves c' = S (saves c) -> file c' = JsonFile (data_of c'))
     /\ (saves c' = saves c -> c' = c))
  /\ (enabled c = false -> c' = c).
Proof.
  intros c'. subst c'. rewrite get_effective_blocklist_eq. cbn [snd].
  split; intros E; rewrite E; [|reflexivity].
  rewrite get_active_exceptions_eq. cbn [snd].
  pose proof (filter_length_lt (fun e => negb (expired_at now e))
                               (exceptions c)) as HL.
  assert (existsb (fun x => negb (negb (expired_at now x))) (exceptions c)
          = existsb (expired_at now) (exceptions c)) as EX.
  { clear. induction (exceptions c) as [|e es IH]; [reflexivity|].
    simpl. now rewrite negb_involutive, IH. }
  cbv beta in HL. rewrite EX in HL. clear EX.
  assert (Forall (fun e => (now < until e)%Z)
            (filter (fun e => negb (expired_at now e)) (exceptions c))) as HF.
  { apply Forall_forall. intros e He. apply filter_In in He.
    destruct He as (_ & He). rewrite expired_at_ltb, negb_involutive in He.
    now apply Z.ltb_lt. }
  destruct (existsb (expired_at now) (exceptions c)) eqn:X.
  - cbn. repeat split; auto.
    + intros _. now apply HL.
    + intros K. exfalso. lia.
  - assert (filter (fun e => negb (expired_at now e)) (exceptions c)
            = exceptions c) as Eall.
    { clear HL HF.
      induction (exceptions c) as [|e es IH]; [reflexivity|].
      simpl in X |- *. apply orb_false_iff in X. destruct X as (-> & X).
      simpl. now rewrite IH. }
    rewrite Eall in HF. repeat split; auto.
    + intros K. exfalso. lia.
    + intros K. rewrite Eall in HL. apply HL in K. discriminate.
    + intros K. exfalso. lia.
Qed.

Lemma get_effective_blocklist_prunes_witness :
  let c := {| blocked_sites := [lit "x.com"];
              exceptions := [{| site := lit "x.com"; until := 3 |};
                             {| site := lit "y.com"; until := 9 |}];
              enabled := true; file := NoFile; saves := 0 |} in
  enabled c = true /\
  exceptions (snd (get_effective_blocklist 5 c))
  = filter (fun e => negb (expired_at 5 e)) (exceptions c).
Proof.
  split; [reflexivity|].
  apply (get_effective_blocklist_prunes 5
           {| blocked_sites := [lit "x.com"];
              exceptions := [{| site := lit "x.com"; until := 3 |};
                             {| site := lit "y.com"; until := 9 |}];
              enabled := true; file := NoFile; saves := 0 |}).
  reflexivity.
Defined.

(** C4 fails as stated: with [enabled] false the call leaves an expired
    exception in the store. *)
Lemma disabled_call_does_not_prune :
  let c := {| blocked_sites := [lit "x.com"];
              exceptions := [{| site := lit "x.com"; until := 3 |}];
              enabled := false; file := NoFile; saves := 0 |} in
  let c' := snd (get_effective_blocklist 5 c) in
  In {| site := lit "x.com"; until := 3 |} (exceptions c')
  /\ (3 <= 5)%Z /\ saves c' = saves c.
Proof. cbn. split; [now left | split; [lia | reflexivity]]. Qed.

Lemma add_exception_fields (now : Z) (raw : str) (minutes : Z) (c : t) :
  let h := normalize raw in
  let c' := add_exception now raw minutes c in
  exceptions c'
  = filter (fun e => negb (str_eqb (site e) h)) (exceptions c)
    ++ [{| site := h; until := (now + timedelta_minutes minutes)%Z |}]
  /\ blocked_sites c' = blocked_sites c /\ enabled c' = enabled c.
Proof. repeat split. Qed.

(** C7: [add_exception] is an upsert: afterwards exactly one exception is
    stored for the normalized hostname, its expiry is the current time plus
    the duration, the exceptions of other hostnames are as before, and the
    result is saved. *)
Theorem add_exception_upsert (now : Z) (raw : str) (minutes : Z) (c : t) :
  let h := normalize raw in
  let c' := add_exception now raw minutes c in
  filter (fun e => str_eqb (site e) h) (exceptions c')
  = [{| site := h; until := (now + timedelta_minutes minutes)%Z |}]
  /\ filter (fun e => negb (str_eqb (site e) h)) (exceptions c')
     = filter (fun e => negb (str_eqb (site e) h)) (exceptions c)
  /\ exceptions c'
     = filter (fun e => negb (str_eqb (site e) h)) (exceptions c)
       ++ [{| site := h; until := (now + timedelta_minutes minutes)%Z |}]
  /\ blocked_sites c' = blocked_sites c /\ enabled c' = enabled c
  /\ file c' = JsonFile (data_of c').
Proof.
  intros h c'. subst c'. unfold add_exception. fold h.
  cbn [save save_steps fold_left save_dump save_open save_mkdir set_file
       set_exceptions exceptions blocked_sites enabled file data_of].
  repeat split.
  - rewrite filter_app. cbn [filter site]. rewrite str_eqb_refl.
    assert (filter (fun e => str_eqb (site e) h)
              (filter (fun e => negb (str_eqb (site e) h)) (exceptions c))
            = []) as ->; [|reflexivity].
    induction (exceptions c) as [|e es IH]; [reflexivity|].
    cbn [filter]. destruct (str_eqb (site e) h) eqn:E; cbn [negb]; [exact IH|].
    cbn [filter]. now rewrite E.
  - rewrite filter_app. cbn [filter site]. rewrite str_eqb_refl.
    cbn [negb]. rewrite app_nil_r.
    induction (exceptions c) as [|e es IH]; [reflexivity|].
    cbn [filter]. destruct (str_eqb (site e) h) eqn:E; cbn [negb]; [exact IH|].
    cbn [filter]. rewrite E. cbn [negb]. now rewrite IH.
Qed.

(** C8 fails as stated: [save] opens the config file itself for writing,
    so a reader can see the emptied file between the old and the new
    content. *)
Lemma save_truncates_in_place :
  let old := {| d_blocked_sites := [lit "x.com"]; d_exceptions := [];
                d_enabled := true |} in
  let c := {| blocked_sites := [lit "x.com"; lit "y.com"]; exceptions := [];
              enabled := true; file := JsonFile old; saves := 1 |} in
  file_trace save_steps c
  = [JsonFile old; JsonFile old; EmptyFile; JsonFile (data_of c)]
  /\ EmptyFile <> JsonFile old /\ EmptyFile <> JsonFile (data_of c).
Proof. repeat split; discriminate. Qed.

(** C8, as amended: [save] writes the full policy into the config file in
    place: the file is first truncated and then holds the dumped policy;
    there is no step that replaces it by a file written elsewhere. *)
Theorem save_in_place (c : t) :
  save c = save_dump (save_open (save_mkdir c))
  /\ file_trace save_steps c
     = [file c; file c; EmptyFile; JsonFile (data_of c)]
  /\ file (save c) = JsonFile (data_of c)
  /\ data_of (save c) = data_of c.
Proof. repeat split. Qed.

Lemma startswith_www (s : str) :
  startswith www s = true -> www ++ skipn 4 s = s.
Proof.
  intros H. apply startswith_spec in H. destruct H as (q & ->). reflexivity.
Qed.

Lemma www_neq (s : str) : www ++ s <> s.
Proof.
  intros H. apply (f_equal (@List.length ascii)) in H.
  rewrite length_app in H. simpl in H. lia.
Qed.

(** The two variants are the bare form and its [www.] form. *)
Lemma variants_bare (site : str) :
  (site = bare site /\ other_variant site = www ++ bare site)
  \/ (site = www ++ bare site /\ other_variant site = bare site).
Proof.
  unfold bare, other_variant. destruct (startswith www site) eqn:E.
  - right. split; [symmetry; now apply startswith_www | reflexivity].
  - left. now split.
Qed.

Lemma other_variant_neq (site : str) : site <> other_variant site.
Proof.
  destruct (variants_bare site) as [(E1 & E2) | (E1 & E2)]; rewrite E2.
  - rewrite <- E1. intros H. symmetry in H. revert H. apply www_neq.
  - rewrite E1 at 1. apply www_neq.
Qed.

Lemma variant_set_eq (first_site : bool) (site : str) :
  variant_set first_site site
  = if first_site then [site; other_variant site]
    else [other_variant site; site].
Proof.
  unfold variant_set.
  destruct (str_eqb site (other_variant site)) eqn:E; [|reflexivity].
  apply str_eqb_eq in E. now apply other_variant_neq in E.
Qed.

(** The loop of [add_site] appends the missing variants, each once. *)
Lemma add_variants (vs : list str) (c : t) :
  exists added,
    blocked_sites (fold_left add_variant vs c) = blocked_sites c ++ added
    /\ NoDup added
    /\ (forall v, In v added -> In v vs /\ ~ In v (blocked_sites c))
    /\ (forall v, In v vs -> In v (blocked_sites c ++ added))
    /\ exceptions (fold_left add_variant vs c) = exceptions c
    /\ enabled (fold_left add_variant vs c) = enabled c.
Proof.
  revert c. induction vs as [|v vs IH]; intros c.
  - exists []. rewrite app_nil_r. repeat split; try constructor; easy.
  - cbn [fold_left]. destruct (IH (add_variant c v))
      as (added & Hb & Hnd & Hin & Hall & He & Hen).
    unfold add_variant in Hb, Hin, Hall, He, Hen |- *.
    destruct (mem v (blocked_sites c)) eqn:M.
    + exists added. apply mem_In in M. repeat split; try assumption.
      * right. now apply Hin.
      * now apply Hin.
      * intros x [<-|Hx]; [apply in_or_app; now left | now apply Hall].
    + apply mem_not_In in M. cbn [blocked_sites set_blocked_sites] in *.
      exists (v :: added). rewrite <- app_assoc in Hb, Hall.
      repeat split; try assumption.
      * constructor; [|assumption]. intros K. apply Hin in K.
        destruct K as (_ & K). apply K. apply in_or_app. right. now left.
      * destruct H as [<-|H]; [now left | right; now apply Hin].
      * destruct H as [<-|H]; [assumption|]. apply Hin in H.
        destruct H as (_ & K). intros B. apply K. apply in_or_app. now left.
      * intros x [<-|Hx]; [|now apply Hall].
        apply in_or_app. right. now left.
Qed.

Lemma filter_all {A} (f : A -> bool) (l : list A) :
  (forall x, In x l -> f x = true) -> filter f l = l.
Proof.
  induction l as [|x l IH]; intros H; [reflexivity|].
  simpl. rewrite (H x (or_introl eq_refl)).
  f_equal. apply IH. intros y Hy. apply H. now right.
Qed.

(** C5: after [add_site] the bare form of the normalized hostname and its
    [www.] form are both blocked, the new entries are appended once each
    and only when they were missing; [remove_site] removes both forms and
    nothing else; and when neither form is blocked [remove_site] leaves the
    policy as it is. *)
Theorem site_variant_symmetry (first_site : bool) (raw : str) (c : t) :
  let site := normalize raw in
  let added_to := add_site first_site raw c in
  let removed_from := remove_site raw c in
  (In (bare site) (blocked_sites added_to)
   /\ In (www ++ bare site) (blocked_sites added_to)
   /\ (exists added,
         blocked_sites added_to = blocked_sites c ++ added
         /\ NoDup added
         /\ forall v, In v added -> ~ In v (blocked_sites c))
   /\ (NoDup (blocked_sites c) -> NoDup (blocked_sites added_to)))
  /\ (~ In (bare site) (blocked_sites removed_from)
      /\ ~ In (www ++ bare site) (blocked_sites removed_from)
      /\ blocked_sites removed_from
         = filter (fun s => negb (str_eqb s (bare site))
                            && negb (str_eqb s (www ++ bare site)))
                  (blocked_sites c))
  /\ (~ In (bare site) (blocked_sites c) ->
      ~ In (www ++ bare site) (blocked_sites c) ->
      blocked_sites removed_from = blocked_sites c
      /\ exceptions removed_from = exceptions c
      /\ enabled removed_from = enabled c).
Proof.
  intros site added_to removed_from.
  assert (forall s, mem s ([site] ++ [other_variant site])
                    = str_eqb s (bare site) || str_eqb s (www ++ bare site))
    as Hmem.
  { intros s. cbn [mem existsb app]. rewrite orb_false_r.
    destruct (variants_bare site) as [(E1 & E2) | (E1 & E2)];
      rewrite E2, <- E1; [reflexivity | apply orb_comm]. }
  assert (blocked_sites removed_from
          = filter (fun s => negb (str_eqb s (bare site))
                             && negb (str_eqb s (www ++ bare site)))
                   (blocked_sites c)) as Hrem.
  { subst removed_from. unfold remove_site. fold site.
    cbn [save save_steps fold_left save_dump save_open save_mkdir set_file
         set_blocked_sites blocked_sites].
    apply filter_ext. intros s. now rewrite Hmem, negb_orb. }
  split; [|split].
  - destruct (add_variants (variant_set first_site site) c)
      as (added & Hb & Hnd & Hin & Hall & _ & _).
    change (blocked_sites added_to)
      with (blocked_sites
              (fold_left add_variant (variant_set first_site site) c)).
    rewrite Hb.
    assert (In site (variant_set first_site site)
            /\ In (other_variant site) (variant_set first_site site))
      as (Hs & Ho).
    { rewrite variant_set_eq. destruct first_site; simpl; tauto. }
    apply Hall in Hs. apply Hall in Ho.
    repeat split.
    + destruct (variants_bare site) as [(E1 & E2) | (E1 & E2)];
        [now rewrite <- E1 | now rewrite <- E2].
    + destruct (variants_bare site) as [(E1 & E2) | (E1 & E2)];
        [now rewrite <- E2 | now rewrite <- E1].
    + exists added. repeat split; [assumption|]. intros v Hv. now apply Hin.
    + intros Hnb. apply NoDup_app; [assumption | assumption|].
      intros a Ha Ka. now apply Hin in Ka.
  - rewrite Hrem. repeat split.
    + intros K. apply filter_In in K. destruct K as (_ & K).
      now rewrite str_eqb_refl in K.
    + intros K. apply filter_In in K. destruct K as (_ & K).
      rewrite str_eqb_refl in K. now rewrite andb_false_r in K.
  - intros Hb Hw. rewrite Hrem. repeat split.
    apply filter_all. intros x Hx. apply andb_true_iff. split.
    + apply negb_true_iff, str_eqb_neq. intros ->. contradiction.
    + apply negb_true_iff, str_eqb_neq. intros ->. contradiction.
Qed.

Lemma site_variant_symmetry_witness :
  let c := {| blocked_sites := [lit "a.com"; lit "www.a.com"];
              exceptions := []; enabled := true; file := NoFile;
              saves := 0 |} in
  let site := normalize (lit " WWW.Example.com ") in
  ~ In (bare site) (blocked_sites c)
  /\ ~ In (www ++ bare site) (blocked_sites c)
  /\ blocked_sites (remove_site (lit " WWW.Example.com ") c)
     = blocked_sites c.
Proof.
  intros c site.
  assert (~ In (bare site) (blocked_sites c)) as H1
    by (vm_compute; intros [K|[K|[]]]; discriminate K).
  assert (~ In (www ++ bare site) (blocked_sites c)) as H2
    by (vm_compute; intros [K|[K|[]]]; discriminate K).
  split; [exact H1 | split; [exact H2|]].
  exact (proj1 (proj2 (proj2 (site_variant_symmetry
                                true (lit " WWW.Example.com ") c)) H1 H2)).
Defined.

Lemma has_active_exception_app (now : Z) (es1 es2 : list exception) (s : str) :
  has_active_exception now (es1 ++ es2) s
  = has_active_exception now es1 s || has_active_exception now es2 s.
Proof. unfold has_active_exception. apply existsb_app. Qed.

(** Entries of another hostname do not matter for [s]. *)
Lemma has_active_exception_other (now : Z) (es : list exception) (h s : str) :
  s <> h ->
  has_active_exception now
    (filter (fun e => negb (str_eqb (site e) h)) es) s
  = has_active_exception now es s.
Proof.
  intros Hne. induction es as [|e es IH]; [reflexivity|].
  cbn [filter]. destruct (str_eqb (site e) h) eqn:E; cbn [negb].
  - rewrite IH. unfold has_active_exception at 2. cbn [existsb].
    apply str_eqb_eq in E.
    assert (str_eqb (site e) s = false) as ->
      by (apply str_eqb_neq; congruence).
    reflexivity.
  - unfold has_active_exception in *. cbn [existsb]. now rewrite IH.
Qed.

(** C6: an exception matches its exact normalized hostname only. With the
    blocker enabled and both [h] and [www.h] blocked, after
    [add_exception(h, m)] and while that exception is active, the effective
    blocklist leaves out [h] and still holds [www.h], unless [www.h] has an
    active exception of its own; any other hostname is decided as before. *)
Theorem exception_exact_hostname
    (now0 now : Z) (raw : str) (minutes : Z) (c : t) :
  let h := normalize raw in
  let c1 := add_exception now0 raw minutes c in
  let effective := fst (get_effective_blocklist now c1) in
  enabled c = true ->
  In h (blocked_sites c) -> In (www ++ h) (blocked_sites c) ->
  (now < now0 + timedelta_minutes minutes)%Z ->
  ~ In h effective
  /\ (In (www ++ h) effective
      <-> has_active_exception now (exceptions c) (www ++ h) = false)
  /\ (forall s, s <> h ->
        (In s effective
         <-> In s (blocked_sites c)
             /\ has_active_exception now (exceptions c) s = false)).
Proof.
  intros h c1 effective Hen Hh Hw Hact.
  destruct (add_exception_fields now0 raw minutes c) as (Hex & Hbs & Hen1).
  fold h c1 in Hex, Hbs, Hen1.
  assert (forall s, In s effective
                    <-> In s (blocked_sites c)
                        /\ has_active_exception now (exceptions c1) s = false)
    as Heff.
  { intros s. subst effective. rewrite get_effective_blocklist_eq. cbn [fst].
    unfold effective_block_set. rewrite Hen1, Hen, Hbs, filter_In.
    now rewrite negb_true_iff. }
  assert (forall s, s <> h ->
            has_active_exception now (exceptions c1) s
            = has_active_exception now (exceptions c) s) as Hother.
  { intros s Hs. rewrite Hex, has_active_exception_app.
    rewrite has_active_exception_other by assumption.
    unfold has_active_exception at 2. cbn [existsb site].
    assert (str_eqb h s = false) as -> by (apply str_eqb_neq; congruence).
    now rewrite !orb_false_r. }
  split; [|split].
  - rewrite Heff. intros (_ & K).
    rewrite Hex, has_active_exception_app in K.
    apply orb_false_iff in K. destruct K as (_ & K).
    unfold has_active_exception in K. cbn [existsb site until] in K.
    rewrite str_eqb_refl in K. apply Z.ltb_lt in Hact. rewrite Hact in K.
    discriminate K.
  - rewrite Heff, Hother by apply www_neq. tauto.
  - intros s Hs. rewrite Heff, Hother by assumption. reflexivity.
Qed.

Lemma exception_exact_hostname_witness :
  let c := {| blocked_sites := [lit "a.com"; lit "www.a.com"];
              exceptions := []; enabled := true; file := NoFile;
              saves := 0 |} in
  let effective :=
    fst (get_effective_blocklist 60000000
           (add_exception 0 (lit "A.com") 15 c)) in
  ~ In (lit "a.com") effective /\ In (lit "www.a.com") effective.
Proof.
  intros c effective.
  assert (enabled c = true) as H1 by reflexivity.
  assert (In (normalize (lit "A.com")) (blocked_sites c)) as H2
    by (now left).
  assert (In (www ++ normalize (lit "A.com")) (blocked_sites c)) as H3
    by (right; now left).
  assert (60000000 < 0 + timedelta_minutes 15)%Z as H4 by reflexivity.
  destruct (exception_exact_hostname 0 60000000 (lit "A.com") 15 c
              H1 H2 H3 H4) as (Ha & Hb & _).
  split; [exact Ha | now apply Hb].
Defined.

End PolicyStore.

(** ** The control handler *)

Section ControlSurface.

Import APIHandler.

Lemma dict_get_missing (key : str) (b : body) (default : jvalue) :
  (forall v, ~ In (key, v) b) -> dict_get key b default = default.
Proof.
  induction b as [|(k, v) b IH]; intros H; [reflexivity|].
  simpl. destruct (str_eqb k key) eqn:E.
  - apply str_eqb_eq in E. subst. exfalso. apply (H v). now left.
  - apply IH. intros v' K. apply (H v'). now right.
Qed.

(** C9: a POST to one of the four paths that take a [site], with a body
    that has no [site] or an empty one, is answered with 400 and changes
    nothing: the policy, the config file and the hosts file are as before. *)
Theorem missing_site_rejected (e : env) (path : str) (b : body) (w : world) :
  In path site_paths ->
  site_missing b \/ site_empty b ->
  do_POST e path b w = (Error 400 (Some (lit "No site provided")), w).
Proof.
  intros Hp Hb.
  assert (dict_get (lit "site") b (JStr []) = JStr []) as Hs.
  { destruct Hb as [Hb|Hb]; [now apply dict_get_missing | exact Hb]. }
  unfold site_paths in Hp.
  destruct Hp as [<-|[<-|[<-|[<-|[]]]]]; unfold do_POST;
    repeat match goal with
      | |- context [str_eqb (lit ?a) (lit ?b)] =>
          let v := eval vm_compute in (str_eqb (lit a) (lit b)) in
          change (str_eqb (lit a) (lit b)) with v; cbv iota
      end;
    rewrite Hs; reflexivity.
Qed.

Lemma missing_site_rejected_witness :
  let e := {| first_site := true; now_mutate := 10; now_apply := 11 |} in
  let w := {| config := {| Config.blocked_sites := [lit "x.com"];
                           Config.exceptions := [];
                           Config.enabled := true;
                           Config.file := Config.NoFile;
                           Config.saves := 0 |};
              hosts := text ["127.0.0.1 localhost"]%string |} in
  let b := [(lit "minutes", JNum 5)] in
  do_POST e (lit "/api/add_exception") b w
  = (Error 400 (Some (lit "No site provided")), w).
Proof.
  intros e w b.
  apply (missing_site_rejected e (lit "/api/add_exception") b w).
  - right. right. now left.
  - left. intros v [K|[]]. discriminate K.
Defined.

(** With a [site], the same request goes on to change the policy, the
    config file and the hosts file. *)
Example add_site_request :
  let e := {| first_site := true; now_mutate := 10; now_apply := 11 |} in
  let c := {| Config.blocked_sites := []; Config.exceptions := [];
              Config.enabled := true; Config.file := Config.NoFile;
              Config.saves := 0 |} in
  let r := do_POST e (lit "/api/add_site") [(lit "site", JStr (lit "X.com"))]
                   {| config := c; hosts := [] |} in
  Config.blocked_sites (config (snd r)) = [lit "x.com"; lit "www.x.com"]
  /\ Config.saves (config (snd r)) = 1
  /\ hosts (snd r)
     = newline :: text ["# === SITE BLOCKER START ===";
                        "127.0.0.1  x.com";
                        "127.0.0.1  www.x.com";
                        "# === SITE BLOCKER END ==="]%string.
Proof. vm_compute. repeat split. Qed.

End ControlSurface.

(** ** Reading the region back *)

Section ReadBack.

Import HostsManager.

Lemma fold_blocks_step (lines : list str) (inside : bool) (acc : list str) :
  fold_left blocks_step lines (inside, acc)
  = (final_inside inside lines, acc ++ found inside lines).
Proof.
  revert inside acc. induction lines as [|l ls IH]; intros inside acc.
  - simpl. now rewrite app_nil_r.
  - cbn [fold_left found final_inside]. unfold blocks_step at 2.
    destruct (contains MARKER_START l); [apply IH|].
    destruct (contains MARKER_END l); [apply IH|].
    destruct (inside && negb (str_eqb (strip l) [])); [|apply IH].
    destruct (split_ws l) as [|p0 [|p1 ps]]; try apply IH.
    rewrite IH, <- app_assoc. reflexivity.
Qed.

Lemma get_current_blocks_found (content : str) :
  get_current_blocks content = found false (split_nl content).
Proof. unfold get_current_blocks. now rewrite fold_blocks_step. Qed.

Lemma found_app (b : bool) (l1 l2 : list str) :
  found b (l1 ++ l2) = found b l1 ++ found (final_inside b l1) l2.
Proof.
  revert b. induction l1 as [|l l1 IH]; intros b; [reflexivity|].
  cbn [app found final_inside].
  destruct (contains MARKER_START l); [apply IH|].
  destruct (contains MARKER_END l); [apply IH|].
  destruct (b && negb (str_eqb (strip l) [])); [|apply IH].
  destruct (split_ws l) as [|p0 [|p1 ps]]; try apply IH.
  cbn [app]. now rewrite IH.
Qed.

(** Outside a region nothing is picked up. *)
Lemma found_outer (ls : list str) :
  Forall outer_line ls -> found false ls = [].
Proof.
  induction 1 as [|l ls (_ & Hs & He) _ IH]; [reflexivity|].
  cbn [found]. now rewrite Hs, He.
Qed.

Lemma contains_In (m s : str) (c : ascii) :
  In c m -> contains m s = true -> In c s.
Proof.
  intros Hc H. apply contains_spec in H. destruct H as (p & q & ->).
  apply in_or_app. right. apply in_or_app. now left.
Qed.

Lemma word_no_space (s : str) (c : ascii) :
  word s -> In c s -> isspace c = false.
Proof.
  intros (_ & H) Hc. rewrite forallb_forall in H.
  apply H in Hc. now apply negb_true_iff.
Qed.

Lemma word_no_newline (s : str) : word s -> ~ In newline s.
Proof. intros H K. apply (word_no_space _ _ H) in K. discriminate K. Qed.

(** A word holds neither marker: both have a space in them. *)
Lemma word_no_marker (s : str) :
  word s ->
  contains MARKER_START s = false /\ contains MARKER_END s = false.
Proof.
  intros H. split.
  - destruct (contains MARKER_START s) eqn:E; [|reflexivity].
    apply (contains_In _ _ " "%char) in E; [|vm_compute; tauto].
    apply (word_no_space _ _ H) in E. discriminate E.
  - destruct (contains MARKER_END s) eqn:E; [|reflexivity].
    apply (contains_In _ _ " "%char) in E; [|vm_compute; tauto].
    apply (word_no_space _ _ H) in E. discriminate E.
Qed.

Lemma word_plain (sites : list str) : Forall word sites -> plain_sites sites.
Proof.
  intros H. eapply Forall_impl; [|exact H].
  intros s Hs. now apply word_no_marker.
Qed.

Lemma site_line_start (site : str) :
  contains MARKER_START (site_line site) = contains MARKER_START site.
Proof.
  unfold site_line, MARKER_START, REDIRECT_IP, lit.
  cbn [list_ascii_of_string app].
  repeat (rewrite contains_skip by discriminate). reflexivity.
Qed.

Lemma site_line_no_newline (site : str) :
  ~ In newline site -> ~ In newline (site_line site).
Proof.
  intros H K. unfold site_line in K.
  apply in_app_or in K. destruct K as [K|K]; [revert K; no_newline|].
  apply in_app_or in K. destruct K as [K|K]; [revert K; no_newline|].
  contradiction.
Qed.

(** Splitting at white space: a run of non-space characters is one part. *)
Lemma split_ws_aux_word (s cur : str) :
  forallb (fun c => negb (isspace c)) s = true ->
  split_ws_aux cur s
  = match rev cur ++ s with [] => [] | _ :: _ => [rev cur ++ s] end.
Proof.
  revert cur. induction s as [|c s IH]; intros cur H.
  - cbn [split_ws_aux]. rewrite app_nil_r.
    destruct cur as [|x cur]; [reflexivity|].
    destruct (rev (x :: cur)) eqn:E; [|reflexivity].
    apply (f_equal (@rev ascii)) in E. rewrite rev_involutive in E.
    discriminate E.
  - cbn [forallb] in H. apply andb_true_iff in H. destruct H as (Hc & H).
    apply negb_true_iff in Hc. cbn [split_ws_aux]. rewrite Hc.
    rewrite IH by assumption. cbn [rev]. now rewrite <- app_assoc.
Qed.

Lemma split_ws_site_line (site : str) :
  word site -> split_ws (site_line site) = [REDIRECT_IP; site].
Proof.
  intros (Hne & Hw). unfold split_ws, site_line, REDIRECT_IP, lit.
  cbn [list_ascii_of_string app].
  cbn [split_ws_aux]. change (isspace " ") with true. cbv iota.
  cbn [rev app]. f_equal.
  rewrite split_ws_aux_word by assumption.
  destruct site; [contradiction | reflexivity].
Qed.

Lemma lstrip_nil (s : str) : lstrip s = [] -> forallb isspace s = true.
Proof.
  induction s as [|c s IH]; [reflexivity|].
  cbn [lstrip forallb]. destruct (isspace c); [exact IH | discriminate].
Qed.

Lemma lstrip_head (s t : str) (c : ascii) :
  lstrip s = c :: t -> isspace c = false.
Proof.
  induction s as [|d s IH]; [discriminate|].
  cbn [lstrip]. destruct (isspace d) eqn:E; [exact IH|].
  intros K. injection K as <- _. exact E.
Qed.

Lemma forallb_rev {A} (f : A -> bool) (l : list A) :
  forallb f (rev l) = forallb f l.
Proof.
  induction l as [|x l IH]; [reflexivity|].
  cbn [rev forallb]. rewrite forallb_app, IH. cbn. rewrite andb_true_r.
  apply andb_comm.
Qed.

(** Only a line of white space strips to nothing. *)
Lemma strip_nil (s : str) : strip s = [] -> forallb isspace s = true.
Proof.
  unfold strip, rstrip. intros H.
  apply (f_equal (@rev ascii)) in H. rewrite rev_involutive in H.
  cbn [rev] in H. apply lstrip_nil in H. rewrite forallb_rev in H.
  destruct (lstrip s) as [|c t] eqn:E; [now apply lstrip_nil|].
  apply lstrip_head in E. cbn [forallb] in H. rewrite E in H. discriminate H.
Qed.

Lemma site_line_not_blank (site : str) :
  str_eqb (strip (site_line site)) [] = false.
Proof.
  apply str_eqb_neq. intros H. apply strip_nil in H. discriminate H.
Qed.

Lemma found_site_lines (sites : list str) :
  Forall word sites ->
  found true (map site_line sites) = sites
  /\ final_inside true (map site_line sites) = true.
Proof.
  induction 1 as [|s sites Hs _ (IH1 & IH2)]; [now split|].
  cbn [map found final_inside].
  destruct (word_no_marker _ Hs) as (H1 & H2).
  rewrite site_line_start, site_line_end, H1, H2.
  rewrite site_line_not_blank, split_ws_site_line by assumption.
  cbn [andb negb]. now rewrite IH1, IH2.
Qed.

Lemma split_ws_blank (s cur : str) :
  forallb isspace s = true ->
  split_ws_aux cur s = match cur with [] => [] | _ :: _ => [rev cur] end.
Proof.
  revert cur. induction s as [|c s IH]; intros cur H; [reflexivity|].
  cbn [forallb] in H. apply andb_true_iff in H. destruct H as (Hc & H).
  cbn [split_ws_aux]. rewrite Hc.
  destruct cur as [|x cur]; [now apply IH|].
  now rewrite IH.
Qed.

(** Between the markers every line gives its second field, if it has
    one. *)
Lemma found_region (body : list str) :
  Forall outer_line body ->
  found true body = flat_map second_field body
  /\ final_inside true body = true.
Proof.
  induction 1 as [|l body (_ & Hs & He) _ (IH1 & IH2)]; [now split|].
  cbn [found final_inside flat_map]. rewrite Hs, He. cbn [andb].
  split; [|exact IH2].
  destruct (str_eqb (strip l) []) eqn:B; cbn [negb].
  - apply str_eqb_eq, strip_nil in B.
    unfold second_field, split_ws. rewrite (split_ws_blank l [] B).
    exact IH1.
  - unfold second_field.
    destruct (split_ws l) as [|p0 [|p1 ps]]; cbn [app]; now rewrite IH1.
Qed.

(** C10: a line that contains a marker anywhere inside it is a delimiter
    for both loops: it is dropped and it sets the region state, to inside
    when it contains the start marker and to outside otherwise. So
    [_strip_our_entries] (hence [apply_blocklist] and [clear]) removes a
    region delimited by such lines, and [get_current_blocks] returns the
    second fields of the lines between such lines and of no other line. *)
Theorem marker_detection_by_substring (p q : str) :
  (forall st, strip_step st (p ++ MARKER_START ++ q) = (true, snd st))
  /\ (forall st, blocks_step st (p ++ MARKER_START ++ q) = (true, snd st))
  /\ (forall st,
        strip_step st (p ++ MARKER_END ++ q)
        = (contains MARKER_START (p ++ MARKER_END ++ q), snd st))
  /\ (forall st,
        blocks_step st (p ++ MARKER_END ++ q)
        = (contains MARKER_START (p ++ MARKER_END ++ q), snd st))
  /\ (forall p' q' pre body post sites,
        Forall outer_line pre -> Forall inner_line body ->
        Forall outer_line post ->
        ~ In newline (p ++ MARKER_START ++ q) ->
        ~ In newline (p' ++ MARKER_END ++ q') ->
        contains MARKER_START (p' ++ MARKER_END ++ q') = false ->
        let content :=
          join_nl (pre ++ (p ++ MARKER_START ++ q)
                       :: body ++ (p' ++ MARKER_END ++ q') :: post) in
        clear content = join_nl (pop_trailing_blank (pre ++ post))
        /\ apply_blocklist sites content
           = join_nl (pop_trailing_blank (pre ++ post)) ++ block_text sites)
  /\ (forall p' q' pre body post,
        Forall outer_line pre -> Forall outer_line body ->
        Forall outer_line post ->
        ~ In newline (p ++ MARKER_START ++ q) ->
        ~ In newline (p' ++ MARKER_END ++ q') ->
        contains MARKER_START (p' ++ MARKER_END ++ q') = false ->
        get_current_blocks
          (join_nl (pre ++ (p ++ MARKER_START ++ q)
                        :: body ++ (p' ++ MARKER_END ++ q') :: post))
        = flat_map second_field body).
Proof.
  assert (forall m a b, contains m (a ++ m ++ b) = true) as Hc
    by (intros m a b; apply contains_spec; now exists a, b).
  split; [|split; [|split; [|split; [|split]]]].
  - intros (b, acc). unfold strip_step. now rewrite Hc.
  - intros (b, acc). unfold blocks_step. now rewrite Hc.
  - intros (b, acc). unfold strip_step.
    destruct (contains MARKER_START (p ++ MARKER_END ++ q));
      [reflexivity | now rewrite Hc].
  - intros (b, acc). unfold blocks_step.
    destruct (contains MARKER_START (p ++ MARKER_END ++ q));
      [reflexivity | now rewrite Hc].
  - intros p' q' pre body post sites Hpre Hbody Hpost Hn Hn' Hs content.
    assert (_strip_our_entries content
            = join_nl (pop_trailing_blank (pre ++ post))) as E
      by (apply strip_region; auto).
    split; [exact E|]. now rewrite apply_blocklist_text, E.
  - intros p' q' pre body post Hpre Hbody Hpost Hn Hn' Hs.
    assert (forall ls, Forall outer_line ls ->
                       Forall (fun l => ~ In newline l) ls) as Hnl
      by (intros ls H; eapply Forall_impl; [|exact H]; now intros l (K & _)).
    rewrite get_current_blocks_found, split_join_lines.
    + rewrite found_app, (found_outer _ Hpre).
      destruct (kept_outer _ Hpre) as (_ & ->).
      cbn [app found]. rewrite Hc, found_app.
      destruct (found_region _ Hbody) as (-> & ->).
      cbn [found]. rewrite Hs, Hc, (found_outer _ Hpost).
      now rewrite app_nil_r.
    + now destruct pre.
    + apply Forall_app. split; [now apply Hnl|].
      constructor; [assumption|]. apply Forall_app. split; [now apply Hnl|].
      constructor; [assumption | now apply Hnl].
Qed.

Lemma marker_detection_by_substring_witness :
  let pre := [lit "127.0.0.1 localhost"] in
  let body := [lit "10.0.0.1  evil.example"; lit "10.0.0.3 third.example x"] in
  let post := [lit "10.0.0.2  other.example"; []] in
  let start_line := lit "x " ++ MARKER_START ++ lit " y" in
  let end_line := lit "<<" ++ MARKER_END ++ lit ">>" in
  let content := join_nl (pre ++ start_line :: body ++ end_line :: post) in
  clear content
  = lit "127.0.0.1 localhost" ++ newline :: lit "10.0.0.2  other.example"
  /\ get_current_blocks content
     = [lit "evil.example"; lit "third.example"].
Proof.
  intros pre body post start_line end_line content.
  pose proof (marker_detection_by_substring (lit "x ") (lit " y")) as H.
  destruct H as (_ & _ & _ & _ & H1 & H2).
  assert (Forall outer_line pre) as Hpre
    by (repeat (constructor; try no_newline)).
  assert (Forall outer_line body) as Hbody
    by (repeat (constructor; try no_newline)).
  assert (Forall inner_line body) as Hin
    by (repeat (constructor; try no_newline)).
  assert (Forall outer_line post) as Hpost
    by (repeat (constructor; try no_newline)).
  assert (~ In newline (lit "x " ++ MARKER_START ++ lit " y")) as Hs
    by no_newline.
  assert (~ In newline (lit "<<" ++ MARKER_END ++ lit ">>")) as He
    by no_newline.
  split.
  - exact (proj1 (H1 (lit "<<") (lit ">>") pre body post []
                     Hpre Hin Hpost Hs He eq_refl)).
  - exact (H2 (lit "<<") (lit ">>") pre body post
              Hpre Hbody Hpost Hs He eq_refl).
Defined.

(** X1: what [apply_blocklist] wrote is what [get_current_blocks] reads. *)
Theorem get_current_blocks_apply (sites : list str) (content : str) :
  Forall word sites ->
  get_current_blocks (apply_blocklist sites content) = sites.
Proof.
  intros Hw. rewrite get_current_blocks_found.
  unfold apply_blocklist. rewrite (strip_outside content).
  pose proof (outside_lines_outer content) as Ho.
  apply as_lines_outer in Ho.
  assert (Forall (fun l => ~ In newline l) (as_lines (outside_lines content)))
    as Hn by (eapply Forall_impl; [|exact Ho]; now intros l (H & _)).
  destruct sites as [|s sites].
  - rewrite <- join_as_lines, split_join_lines
      by (apply as_lines_nonempty || assumption).
    now apply found_outer.
  - rewrite render_block_lines, split_join_lines.
    + rewrite found_app, (found_outer _ Ho).
      destruct (kept_outer _ Ho) as (_ & ->).
      change (found false (MARKER_START :: ?x)) with (found true x).
      rewrite found_app.
      destruct (found_site_lines _ Hw) as (-> & ->).
      change (found true [MARKER_END; []]) with (@nil str).
      now rewrite app_nil_r.
    + pose proof (as_lines_nonempty (outside_lines content)).
      now destruct (as_lines (outside_lines content)).
    + apply Forall_app. split; [assumption|].
      constructor; [no_newline|]. apply Forall_app. split.
      * apply Forall_forall. intros l Hl. apply in_map_iff in Hl.
        destruct Hl as (x & <- & Hx). apply site_line_no_newline.
        rewrite Forall_forall in Hw. now apply word_no_newline, Hw.
      * constructor; [no_newline|]. constructor; [intros []|constructor].
Qed.

Lemma get_current_blocks_apply_witness :
  let sites := [lit "x.com"; lit "www.x.com"] in
  let content := text ["127.0.0.1 localhost"; "# local"]%string in
  Forall word sites
  /\ get_current_blocks (apply_blocklist sites content) = sites.
Proof.
  assert (Forall word [lit "x.com"; lit "www.x.com"]) as H
    by (repeat constructor; discriminate).
  split; [exact H|].
  exact (get_current_blocks_apply [lit "x.com"; lit "www.x.com"]
           (text ["127.0.0.1 localhost"; "# local"]%string) H).
Defined.

Lemma split_clear (content : str) :
  split_nl (clear content) = as_lines (outside_lines content).
Proof.
  unfold clear. rewrite strip_outside, <- join_as_lines.
  pose proof (as_lines_outer _ (outside_lines_outer content)) as Ho.
  apply split_join_lines; [apply as_lines_nonempty|].
  eapply Forall_impl; [|exact Ho]. now intros l (H & _).
Qed.

(** X2: whatever [apply_blocklist] and [clear] calls came before, a final
    [clear] leaves the file that a [clear] of the initial content gives: no
    line of it holds a marker, [get_current_blocks] finds nothing in it, and
    clearing it again does not change it. *)
Theorem clear_after_calls (ks : list hosts_call) (content : str) :
  Forall (fun k => plain_sites (call_sites k)) ks ->
  let final := clear (run_calls ks content) in
  final = clear content
  /\ Forall outer_line (split_nl final)
  /\ get_current_blocks final = []
  /\ clear final = final.
Proof.
  intros Hks final.
  assert (final = clear content) as E
    by (subst final; unfold clear; now apply strip_run_calls).
  rewrite E. split; [reflexivity|].
  pose proof (as_lines_outer _ (outside_lines_outer content)) as Ho.
  split; [|split].
  - now rewrite split_clear.
  - rewrite get_current_blocks_found, split_clear. now apply found_outer.
  - unfold clear. apply (strip_apply [] content). constructor.
Qed.

Lemma clear_after_calls_witness :
  let ks := [Apply [lit "x.com"]; Clear; Apply [lit "y.com"]] in
  let content := text ["127.0.0.1 localhost"; EmptyString]%string in
  Forall (fun k => plain_sites (call_sites k)) ks
  /\ clear (run_calls ks content) = clear content.
Proof.
  assert (Forall (fun k => plain_sites (call_sites k))
            [Apply [lit "x.com"]; Clear; Apply [lit "y.com"]]) as H
    by (repeat constructor).
  split; [exact H|].
  exact (proj1 (clear_after_calls
                  [Apply [lit "x.com"]; Clear; Apply [lit "y.com"]]
                  (text ["127.0.0.1 localhost"; EmptyString]%string) H)).
Defined.

(** X3: a start marker that is never closed makes [_strip_our_entries] drop
    every line after it, up to the end of the file; an end marker without a
    start marker before it is just dropped. *)
Theorem unmatched_markers (pre rest : list str) (m_line : str) :
  Forall outer_line pre -> Forall outer_line rest -> ~ In newline m_line ->
  (contains MARKER_START m_line = true ->
   _strip_our_entries (join_nl (pre ++ m_line :: rest))
   = join_nl (pop_trailing_blank pre))
  /\ (contains MARKER_START m_line = false ->
      contains MARKER_END m_line = true ->
      _strip_our_entries (join_nl (pre ++ m_line :: rest))
      = join_nl (pop_trailing_blank (pre ++ rest))).
Proof.
  intros Hpre Hrest Hn.
  assert (split_nl (join_nl (pre ++ m_line :: rest)) = pre ++ m_line :: rest)
    as Hsplit.
  { apply split_join_lines; [now destruct pre|].
    apply Forall_app. split.
    - eapply Forall_impl; [|exact Hpre]. now intros l (H & _).
    - constructor; [assumption|].
      eapply Forall_impl; [|exact Hrest]. now intros l (H & _). }
  destruct (kept_outer _ Hpre) as (Hk & Hf).
  split.
  - intros Hs. rewrite strip_outside. unfold outside_lines.
    rewrite Hsplit, kept_app, Hk, Hf. cbn [kept]. rewrite Hs.
    assert (kept true rest = []) as ->.
    { apply kept_inner. eapply Forall_impl; [|exact Hrest].
      now intros l (_ & _ & H). }
    now rewrite app_nil_r.
  - intros Hs He. rewrite strip_outside. unfold outside_lines.
    rewrite Hsplit, kept_app, Hk, Hf. cbn [kept]. rewrite Hs, He.
    now destruct (kept_outer _ Hrest) as (-> & _).
Qed.

Lemma unmatched_markers_witness :
  let pre := [lit "127.0.0.1 localhost"] in
  let rest := [lit "10.0.0.1 printer"; lit "10.0.0.2 nas"] in
  _strip_our_entries (join_nl (pre ++ MARKER_START :: rest))
  = lit "127.0.0.1 localhost".
Proof.
  intros pre rest.
  refine (proj1 (unmatched_markers pre rest MARKER_START _ _ _) eq_refl).
  - repeat (constructor; try no_newline).
  - repeat (constructor; try no_newline).
  - no_newline.
Defined.

End ReadBack.

(** ** Normalized hostnames *)

Section Normalize.

Import Config.

Lemma lower_char_idem (c : ascii) : lower_char (lower_char c) = lower_char c.
Proof.
  destruct c as [b0 b1 b2 b3 b4 b5 b6 b7].
  destruct b0, b1, b2, b3, b4, b5, b6, b7; reflexivity.
Qed.

Lemma isspace_lower_char (c : ascii) : isspace (lower_char c) = isspace c.
Proof.
  destruct c as [b0 b1 b2 b3 b4 b5 b6 b7].
  destruct b0, b1, b2, b3, b4, b5, b6, b7; reflexivity.
Qed.

Lemma lower_idem (s : str) : lower (lower s) = lower s.
Proof.
  unfold lower. rewrite map_map. apply map_ext. apply lower_char_idem.
Qed.

Lemma lstrip_lower (s : str) : lstrip (lower s) = lower (lstrip s).
Proof.
  induction s as [|c s IH]; [reflexivity|].
  cbn [lower map lstrip]. rewrite isspace_lower_char.
  destruct (isspace c); [exact IH | reflexivity].
Qed.

Lemma strip_lower (s : str) : strip (lower s) = lower (strip s).
Proof.
  unfold strip, rstrip. rewrite lstrip_lower.
  unfold lower at 1. rewrite <- map_rev. fold (lower (rev (lstrip s))).
  rewrite lstrip_lower. unfold lower. now rewrite map_rev.
Qed.

Lemma lstrip_left_clean (s : str) : left_clean (lstrip s).
Proof.
  induction s as [|c s IH]; [exact I|].
  cbn [lstrip]. destruct (isspace c) eqn:E; [exact IH | exact E].
Qed.

Lemma lstrip_fixed (s : str) : left_clean s -> lstrip s = s.
Proof.
  destruct s as [|c s]; [reflexivity|]. cbn. now intros ->.
Qed.

Lemma lstrip_suffix (s : str) :
  exists u, s = u ++ lstrip s /\ forallb isspace u = true.
Proof.
  induction s as [|c s (u & E & Hu)]; [now exists []|].
  cbn [lstrip]. destruct (isspace c) eqn:Ec.
  - exists (c :: u). cbn [forallb app]. rewrite Ec, Hu. split; [|reflexivity].
    now rewrite <- E.
  - now exists [].
Qed.

Lemma rstrip_left_clean (s : str) : left_clean s -> left_clean (rstrip s).
Proof.
  intros H. unfold rstrip.
  destruct (lstrip_suffix (rev s)) as (u & E & Hu).
  apply (f_equal (@rev ascii)) in E.
  rewrite rev_involutive, rev_app_distr in E.
  destruct (rev (lstrip (rev s))) as [|c t] eqn:R; [exact I|].
  rewrite E in H. exact H.
Qed.

Lemma strip_idem (s : str) : strip (strip s) = strip s.
Proof.
  unfold strip at 1.
  assert (left_clean (strip s)) as Hl
    by (apply rstrip_left_clean, lstrip_left_clean).
  rewrite (lstrip_fixed _ Hl).
  unfold strip, rstrip. rewrite rev_involutive.
  now rewrite (lstrip_fixed _ (lstrip_left_clean _)).
Qed.

Lemma normalize_idem (raw : str) : normalize (normalize raw) = normalize raw.
Proof.
  unfold normalize.
  rewrite (strip_lower (strip (lower raw))), strip_idem.
  now rewrite (strip_lower raw), lower_idem.
Qed.

(** X4: [normalize] is idempotent and commutes the two steps, so every
    policy call on a hostname does what it does on the normalized hostname:
    the calls do not tell apart spellings that differ in case or in
    surrounding white space. *)
Theorem calls_on_normalized (raw : str) (c : t) :
  normalize (normalize raw) = normalize raw
  /\ normalize raw = lower (strip raw)
  /\ (forall first_site,
        add_site first_site (normalize raw) c = add_site first_site raw c)
  /\ remove_site (normalize raw) c = remove_site raw c
  /\ (forall now minutes,
        add_exception now (normalize raw) minutes c
        = add_exception now raw minutes c)
  /\ remove_exception (normalize raw) c = remove_exception raw c.
Proof.
  pose proof (normalize_idem raw) as E.
  split; [exact E|]. split; [apply strip_lower|].
  unfold add_site, remove_site, add_exception, remove_exception.
  rewrite E. repeat split.
Qed.

End Normalize.

(** ** The policy store: loading and invariants *)

Section StoreInvariants.

Import Config ConfigIO.

Lemma in_sync_save (c : t) : in_sync (save c).
Proof. reflexivity. Qed.



(** X6: on the first run (no config file) the store starts with the
    default blocklist, enabled and without exceptions, already written to
    the file; the defaults have no duplicate, are fixed by [normalize], come
    in pairs with their [www.] form, and are all blocked at any time. *)
Theorem first_run_defaults :
  exists c,
    init NoFile = Some c
    /\ blocked_sites c = DEFAULT_BLOCKED /\ exceptions c = []
    /\ enabled c = true /\ in_sync c /\ saves c = 1
    /\ NoDup DEFAULT_BLOCKED
    /\ Forall (fun s => normalize s = s) DEFAULT_BLOCKED
    /\ Forall (fun s => In (other_variant s) DEFAULT_BLOCKED) DEFAULT_BLOCKED
    /\ forall now, fst (get_effective_blocklist now c) = DEFAULT_BLOCKED.
Proof.
  eexists. split; [reflexivity|]. repeat split.
  - unfold DEFAULT_BLOCKED.
    repeat (constructor;
            [intros K; vm_compute in K;
             repeat (destruct K as [K|K]; [discriminate K|]); exact K|]).
    constructor.
  - repeat constructor.
  - unfold DEFAULT_BLOCKED.
    repeat (constructor; [vm_compute; tauto|]). constructor.
Qed.

Lemma saved_fields (c : t) :
  blocked_sites (save c) = blocked_sites c
  /\ exceptions (save c) = exceptions c /\ enabled (save c) = enabled c.
Proof. repeat split. Qed.

Lemma pruned_store (now : Z) (c : t) :
  let c' := snd (get_active_exceptions now c) in
  blocked_sites c' = blocked_sites c /\ enabled c' = enabled c
  /\ exceptions c' = filter (fun e => negb (expired_at now e)) (exceptions c)
  /\ (in_sync c -> in_sync c').
Proof.
  cbn zeta. rewrite get_active_exceptions_eq. cbn [snd].
  destruct (existsb (expired_at now) (exceptions c)) eqn:X.
  - split; [reflexivity|]. split; [reflexivity|]. split; [reflexivity|].
    intros _. reflexivity.
  - split; [reflexivity|]. split; [reflexivity|]. split; [|trivial].
    symmetry. apply filter_all. intros e He.
    destruct (expired_at now e) eqn:E; [|reflexivity].
    assert (existsb (expired_at now) (exceptions c) = true) as K; [|congruence].
    apply existsb_exists. now exists e.
Qed.

Lemma evaluated_store (now : Z) (c : t) :
  let c' := snd (get_effective_blocklist now c) in
  blocked_sites c' = blocked_sites c /\ enabled c' = enabled c
  /\ (in_sync c -> in_sync c').
Proof.
  cbn zeta. rewrite get_effective_blocklist_eq. cbn [snd].
  destruct (enabled c) eqn:E.
  - destruct (pruned_store now c) as (H1 & H2 & _ & H3).
    split; [exact H1|]. split; [congruence | exact H3].
  - split; [reflexivity|]. split; [assumption | trivial].
Qed.

Lemma add_site_blocked (first_site : bool) (raw : str) (c : t) :
  blocked_sites (add_site first_site raw c)
  = blocked_sites
      (fold_left add_variant (variant_set first_site (normalize raw)) c).
Proof. reflexivity. Qed.

Lemma other_variant_plain (s : str) :
  contains MARKER_END s = false ->
  contains MARKER_END (other_variant s) = false.
Proof.
  intros H. unfold other_variant. destruct (startswith www s) eqn:E.
  - apply startswith_www in E. rewrite <- E in H.
    apply (contains_false_infix MARKER_END www (skipn 4 s) []).
    now rewrite app_nil_r.
  - unfold www, MARKER_END, lit. cbn [list_ascii_of_string app].
    repeat (rewrite contains_skip by discriminate). exact H.
Qed.

Lemma variant_set_plain (first_site : bool) (raw v : str) :
  In v (variant_set first_site (normalize raw)) ->
  contains MARKER_END v = false.
Proof.
  rewrite variant_set_eq. pose proof (normalize_plain raw) as Hp.
  pose proof (other_variant_plain _ Hp) as Ho.
  destruct first_site; intros [<-|[<-|[]]]; assumption.
Qed.

Lemma run_call_blocked (k : policy_call) (c : t) :
  (exists first_site raw added,
      blocked_sites (run_policy_call k c) = blocked_sites c ++ added
      /\ NoDup added
      /\ (forall v, In v added ->
            In v (variant_set first_site (normalize raw))
            /\ ~ In v (blocked_sites c)))
  \/ (exists f, blocked_sites (run_policy_call k c)
                = filter f (blocked_sites c)).
Proof.
  destruct k as [fs raw|raw|now raw m|raw| |now|now]; cbn [run_policy_call].
  - left. rewrite add_site_blocked.
    destruct (add_variants (variant_set fs (normalize raw)) c)
      as (added & Hb & Hnd & Hin & _).
    now exists fs, raw, added.
  - right. eexists. reflexivity.
  - right. exists (fun _ => true). now rewrite filter_true.
  - right. exists (fun _ => true). now rewrite filter_true.
  - right. exists (fun _ => true). now rewrite filter_true.
  - right. exists (fun _ => true). rewrite filter_true.
    apply (pruned_store now c).
  - right. exists (fun _ => true). rewrite filter_true.
    apply (evaluated_store now c).
Qed.

Lemma NoDup_filter_keep {A} (f : A -> bool) (l : list A) :
  NoDup l -> NoDup (filter f l).
Proof.
  induction 1 as [|x l Hx _ IH]; [constructor|].
  cbn [filter]. destruct (f x); [|assumption].
  constructor; [|assumption]. intros K. apply filter_In in K. tauto.
Qed.

Lemma run_policy_calls_snoc (ks : list policy_call) (k : policy_call) (c : t) :
  run_policy_calls (ks ++ [k]) c
  = run_policy_call k (run_policy_calls ks c).
Proof. unfold run_policy_calls. now rewrite fold_left_app. Qed.

(** X7: no sequence of policy calls puts a duplicate into the blocklist,
    nor a hostname that carries the end marker: both properties of the
    blocklist are kept by every call. *)
Theorem blocklist_invariants (ks : list policy_call) (c : t) :
  (NoDup (blocked_sites c) -> NoDup (blocked_sites (run_policy_calls ks c)))
  /\ (plain_sites (blocked_sites c) ->
      plain_sites (blocked_sites (run_policy_calls ks c))).
Proof.
  induction ks as [|k ks (IH1 & IH2)] using rev_ind; [now split|].
  rewrite run_policy_calls_snoc.
  destruct (run_call_blocked k (run_policy_calls ks c))
    as [(fs & raw & added & -> & Hnd & Hin) | (f & ->)].
  - split; intros H.
    + apply NoDup_app; [now apply IH1 | assumption|].
      intros a Ha Ka. now apply Hin in Ka.
    + apply Forall_app. split; [now apply IH2|].
      apply Forall_forall. intros v Hv. apply Hin in Hv.
      destruct Hv as (Hv & _). now apply variant_set_plain in Hv.
  - split; intros H.
    + apply NoDup_filter_keep. now apply IH1.
    + unfold plain_sites. apply Forall_forall. intros v Hv.
      apply filter_In in Hv. destruct Hv as (Hv & _).
      specialize (IH2 H). unfold plain_sites in IH2.
      rewrite Forall_forall in IH2. now apply IH2.
Qed.

Lemma blocklist_invariants_witness :
  let c := {| blocked_sites := [lit "a.com"]; exceptions := [];
              enabled := true; file := NoFile; saves := 0 |} in
  let ks := [AddSite true (lit "A.com"); AddSite false (lit "www.a.com");
             RemoveSite (lit "b.com"); EffectiveBlocklist 3] in
  NoDup (blocked_sites c) /\ NoDup (blocked_sites (run_policy_calls ks c)).
Proof.
  intros c ks.
  assert (NoDup (blocked_sites c)) as H
    by (constructor; [intros [] | constructor]).
  split; [exact H|].
  exact (proj1 (blocklist_invariants ks c) H).
Defined.

Lemma run_call_in_sync (k : policy_call) (c : t) :
  (is_mutator k = true -> in_sync (run_policy_call k c))
  /\ (in_sync c -> in_sync (run_policy_call k c)).
Proof.
  destruct k as [fs raw|raw|now raw m|raw| |now|now];
    cbn [run_policy_call is_mutator];
    try (split; intros _; reflexivity).
  - split; [discriminate | apply (pruned_store now c)].
  - split; [discriminate | apply (evaluated_store now c)].
Qed.

(** X8: the config file follows the memory. After any sequence of policy
    calls the file holds exactly the policy in memory, as soon as the
    sequence has one mutating call or the two agreed at the start. *)
Theorem file_follows_memory (ks : list policy_call) (c : t) :
  in_sync c \/ existsb is_mutator ks = true ->
  in_sync (run_policy_calls ks c).
Proof.
  induction ks as [|k ks IH] using rev_ind.
  - intros [H|H]; [exact H | discriminate H].
  - intros H. rewrite run_policy_calls_snoc.
    destruct (run_call_in_sync k (run_policy_calls ks c)) as (Hm & Hs).
    destruct (is_mutator k) eqn:M; [now apply Hm|].
    apply Hs, IH. destruct H as [H|H]; [now left|].
    right. rewrite existsb_app in H. cbn in H. rewrite M in H.
    now rewrite !orb_false_r in H.
Qed.

Lemma file_follows_memory_witness :
  let c := {| blocked_sites := [lit "a.com"]; exceptions := [];
              enabled := true; file := NoFile; saves := 0 |} in
  let ks := [EffectiveBlocklist 1; Toggle; ActiveExceptions 2] in
  in_sync (run_policy_calls ks c).
Proof.
  intros c ks. apply (file_follows_memory ks c). right. reflexivity.
Defined.

End StoreInvariants.

(** ** How the policy calls compose *)

Section Composition.

Import Config.

Lemma add_variants_present (vs : list str) (c : t) :
  (forall v, In v vs -> In v (blocked_sites c)) ->
  fold_left add_variant vs c = c.
Proof.
  induction vs as [|v vs IH]; intros H; [reflexivity|].
  cbn [fold_left]. unfold add_variant at 2.
  assert (mem v (blocked_sites c) = true) as ->
    by (apply mem_In, H; now left).
  apply IH. intros x Hx. apply H. now right.
Qed.

Lemma variant_set_In (f1 f2 : bool) (site v : str) :
  In v (variant_set f1 site) -> In v (variant_set f2 site).
Proof.
  rewrite !variant_set_eq. destruct f1, f2; cbn; tauto.
Qed.

Lemma variant_set_mem (first_site : bool) (site v : str) :
  In v (variant_set first_site site)
  <-> mem v ([site] ++ [other_variant site]) = true.
Proof.
  rewrite variant_set_eq, mem_In. destruct first_site; cbn; tauto.
Qed.

(** X9: adding a site twice is adding it once, whatever the order in which
    the two variants are visited; and [remove_site] undoes [add_site]:
    after add then remove, the blocklist is what [remove_site] alone gives,
    which is the old blocklist when neither variant was in it. *)
Theorem add_site_remove_site (f1 f2 : bool) (raw : str) (c : t) :
  blocked_sites (add_site f2 raw (add_site f1 raw c))
  = blocked_sites (add_site f1 raw c)
  /\ blocked_sites (remove_site raw (add_site f1 raw c))
     = blocked_sites (remove_site raw c)
  /\ (~ In (normalize raw) (blocked_sites c) ->
      ~ In (other_variant (normalize raw)) (blocked_sites c) ->
      blocked_sites (remove_site raw (add_site f1 raw c)) = blocked_sites c).
Proof.
  set (site := normalize raw).
  destruct (add_variants (variant_set f1 site) c)
    as (added & Hb & Hnd & Hin & Hall & _).
  assert (blocked_sites (remove_site raw (add_site f1 raw c))
          = blocked_sites (remove_site raw c)) as Hrm.
  { change (blocked_sites (remove_site raw (add_site f1 raw c)))
      with (filter (fun s => negb (mem s ([site] ++ [other_variant site])))
                   (blocked_sites (add_site f1 raw c))).
    rewrite add_site_blocked. fold site. rewrite Hb, filter_app.
    assert (filter (fun s => negb (mem s ([site] ++ [other_variant site])))
                   added = []) as ->.
    { apply filter_nil_iff. apply not_true_is_false. intros K.
      apply existsb_exists in K. destruct K as (v & Hv & K).
      apply Hin in Hv. destruct Hv as (Hv & _).
      apply variant_set_mem in Hv. rewrite Hv in K. discriminate K. }
    now rewrite app_nil_r. }
  split; [|split].
  - rewrite (add_site_blocked f2). fold site.
    rewrite add_variants_present; [reflexivity|].
    intros v Hv. rewrite add_site_blocked. fold site. rewrite Hb.
    apply Hall. now apply (variant_set_In f2 f1).
  - exact Hrm.
  - intros Hs Ho. rewrite Hrm.
    change (blocked_sites (remove_site raw c))
      with (filter (fun s => negb (mem s ([site] ++ [other_variant site])))
                   (blocked_sites c)).
    apply filter_all. intros x Hx. apply negb_true_iff, mem_not_In.
    intros [<-|[<-|[]]]; contradiction.
Qed.

Lemma add_site_remove_site_witness :
  let c := {| blocked_sites := [lit "a.com"; lit "www.a.com"];
              exceptions := []; enabled := true; file := NoFile;
              saves := 0 |} in
  blocked_sites (remove_site (lit "B.com") (add_site true (lit "B.com") c))
  = blocked_sites c.
Proof.
  intros c.
  refine (proj2 (proj2 (add_site_remove_site true true (lit "B.com") c)) _ _).
  - vm_compute. intros [K|[K|[]]]; discriminate K.
  - vm_compute. intros [K|[K|[]]]; discriminate K.
Defined.

Lemma filter_filter_same {A} (f : A -> bool) (l : list A) :
  filter f (filter f l) = filter f l.
Proof.
  apply filter_all. intros x Hx. now apply filter_In in Hx.
Qed.

Lemma remove_exception_exceptions (raw : str) (c : t) :
  exceptions (remove_exception raw c)
  = filter (fun e => negb (str_eqb (site e) (normalize raw))) (exceptions c).
Proof. reflexivity. Qed.

(** X10: [remove_exception] drops every exception of the normalized
    hostname and keeps the others in order; it undoes [add_exception];
    doing it twice changes nothing more; without an exception for the
    hostname the exceptions stay as they are; and afterwards a blocked
    hostname of an enabled policy is in the effective blocklist at any
    time. *)
Theorem remove_exception_spec (raw : str) (c : t) :
  let h := normalize raw in
  let c' := remove_exception raw c in
  (forall e, In e (exceptions c') <-> In e (exceptions c) /\ site e <> h)
  /\ (forall now minutes,
        exceptions (remove_exception raw (add_exception now raw minutes c))
        = exceptions c')
  /\ exceptions (remove_exception raw c') = exceptions c'
  /\ ((forall e, In e (exceptions c) -> site e <> h) ->
      exceptions c' = exceptions c)
  /\ (enabled c = true -> In h (blocked_sites c) ->
      forall now, In h (fst (get_effective_blocklist now c'))).
Proof.
  intros h c'. subst c'.
  split; [|split; [|split; [|split]]].
  - intros e. rewrite remove_exception_exceptions, filter_In.
    fold h. rewrite negb_true_iff, str_eqb_neq. reflexivity.
  - intros now minutes. rewrite !remove_exception_exceptions.
    destruct (add_exception_fields now raw minutes c) as (-> & _).
    fold h. rewrite filter_app, filter_filter_same.
    cbn [filter site]. rewrite str_eqb_refl. cbn [negb].
    now rewrite app_nil_r.
  - rewrite !remove_exception_exceptions. apply filter_filter_same.
  - intros H. rewrite remove_exception_exceptions. fold h.
    apply filter_all. intros e He.
    apply negb_true_iff, str_eqb_neq. now apply H.
  - intros Hen Hb now. rewrite get_effective_blocklist_eq. cbn [fst].
    unfold effective_block_set.
    change (enabled (remove_exception raw c)) with (enabled c).
    change (blocked_sites (remove_exception raw c)) with (blocked_sites c).
    rewrite Hen. apply filter_In. split; [assumption|].
    apply negb_true_iff. rewrite remove_exception_exceptions. fold h.
    unfold has_active_exception. apply not_true_is_false. intros K.
    apply existsb_exists in K. destruct K as (e & He & K).
    apply filter_In in He. destruct He as (_ & He).
    apply andb_true_iff in K. destruct K as (K & _).
    rewrite K in He. discriminate He.
Qed.

Lemma remove_exception_spec_witness :
  let c := {| blocked_sites := [lit "x.com"];
              exceptions := [{| site := lit "x.com"; until := 100 |}];
              enabled := true; file := NoFile; saves := 0 |} in
  In (normalize (lit "X.com"))
     (fst (get_effective_blocklist 5 (remove_exception (lit "X.com") c))).
Proof.
  intros c.
  refine (proj2 (proj2 (proj2 (proj2
            (remove_exception_spec (lit "X.com") c)))) eq_refl _ 5%Z).
  now left.
Defined.

(** An expired entry does not count, so pruning does not change which
    hostnames have an active exception. *)
Lemma has_active_exception_pruned (now : Z) (es : list exception) (s : str) :
  has_active_exception now (filter (fun e => negb (expired_at now e)) es) s
  = has_active_exception now es s.
Proof.
  induction es as [|e es IH]; [reflexivity|].
  cbn [filter]. rewrite (expired_at_ltb now e), negb_involutive.
  unfold has_active_exception in *.
  destruct (now <? until e)%Z eqn:E; cbn [existsb].
  - now rewrite IH.
  - rewrite IH, E. now rewrite andb_false_r.
Qed.

Lemma effective_block_set_pruned (now : Z) (c : t) :
  effective_block_set now (snd (get_effective_blocklist now c))
  = effective_block_set now c.
Proof.
  unfold effective_block_set.
  destruct (evaluated_store now c) as (-> & -> & _).
  destruct (enabled c) eqn:E; [|reflexivity].
  apply filter_ext. intros s. f_equal.
  rewrite get_effective_blocklist_eq. cbn [snd]. rewrite E.
  destruct (pruned_store now c) as (_ & _ & -> & _).
  apply has_active_exception_pruned.
Qed.

Lemma existsb_expired_pruned (now : Z) (es : list exception) :
  existsb (expired_at now) (filter (fun e => negb (expired_at now e)) es)
  = false.
Proof.
  apply not_true_is_false. intros K. apply existsb_exists in K.
  destruct K as (e & He & K). apply filter_In in He.
  destruct He as (_ & He). rewrite K in He. discriminate He.
Qed.

(** X11: evaluating twice at the same instant: the second
    [get_effective_blocklist] returns the same list and leaves the store,
    file and save count included, untouched, since the first call has
    removed everything that the second could prune. *)
Theorem evaluation_settles (now : Z) (c : t) :
  let '(l1, c1) := get_effective_blocklist now c in
  get_effective_blocklist now c1 = (l1, c1)
  /\ get_active_exceptions now (snd (get_active_exceptions now c))
     = (fst (get_active_exceptions now c),
        snd (get_active_exceptions now c)).
Proof.
  destruct (get_effective_blocklist now c) as (l1, c1) eqn:G.
  assert (c1 = snd (get_effective_blocklist now c)) as Ec by now rewrite G.
  assert (l1 = effective_block_set now c) as El
    by (rewrite get_effective_blocklist_eq in G; now injection G).
  assert (forall c0,
            get_active_exceptions now (snd (get_active_exceptions now c0))
            = (fst (get_active_exceptions now c0),
               snd (get_active_exceptions now c0))) as Hact.
  { intros c0. rewrite (get_active_exceptions_eq now
                          (snd (get_active_exceptions now c0))).
    destruct (pruned_store now c0) as (_ & _ & Hex & _).
    rewrite Hex, existsb_expired_pruned, filter_filter_same.
    now rewrite get_active_exceptions_eq. }
  split; [|apply Hact].
  rewrite get_effective_blocklist_eq. f_equal.
  - rewrite Ec, El. apply effective_block_set_pruned.
  - destruct (enabled c1) eqn:E1; [|reflexivity].
    assert (enabled c = true) as E
      by (destruct (evaluated_store now c) as (_ & <- & _); congruence).
    rewrite Ec, get_effective_blocklist_eq. cbn [snd]. rewrite E.
    now rewrite Hact.
Qed.

(** X12: between two evaluations with no other call, the effective
    blocklist can only grow: what is blocked at [now] is still blocked at
    any later [now'], evaluated on the store that the first call left. *)
Theorem effective_blocklist_grows (now now' : Z) (c : t) :
  (now <= now')%Z ->
  let '(l1, c1) := get_effective_blocklist now c in
  incl l1 (fst (get_effective_blocklist now' c1)).
Proof.
  intros Hle.
  destruct (get_effective_blocklist now c) as (l1, c1) eqn:G.
  assert (c1 = snd (get_effective_blocklist now c)) as Ec by now rewrite G.
  assert (l1 = effective_block_set now c1) as El.
  { rewrite Ec, effective_block_set_pruned.
    rewrite get_effective_blocklist_eq in G. now injection G. }
  rewrite get_effective_blocklist_eq. cbn [fst]. rewrite El.
  unfold effective_block_set. destruct (enabled c1); [|apply incl_refl].
  intros s Hs. apply filter_In in Hs. destruct Hs as (Hs & Ha).
  apply filter_In. split; [assumption|].
  apply negb_true_iff in Ha. apply negb_true_iff.
  apply not_true_is_false. intros K.
  unfold has_active_exception in *.
  apply existsb_exists in K. destruct K as (e & He & K).
  apply andb_true_iff in K. destruct K as (K1 & K2).
  assert (existsb (fun e => str_eqb (site e) s && (now <? until e)%Z)
                  (exceptions c1) = true) as T; [|congruence].
  apply existsb_exists. exists e. split; [assumption|].
  rewrite K1. apply Z.ltb_lt in K2. cbn. apply Z.ltb_lt. lia.
Qed.

Lemma effective_blocklist_grows_witness :
  let c := {| blocked_sites := [lit "x.com"; lit "y.com"];
              exceptions := [{| site := lit "x.com"; until := 10 |};
                             {| site := lit "y.com"; until := 3 |}];
              enabled := true; file := NoFile; saves := 0 |} in
  incl (fst (get_effective_blocklist 5 c))
       (fst (get_effective_blocklist 20
               (snd (get_effective_blocklist 5 c)))).
Proof.
  intros c.
  assert (5 <= 20)%Z as H by lia.
  exact (effective_blocklist_grows 5 20 c H).
Defined.

(** X13: an exception runs out. Once the time reaches the expiry that
    [add_exception] set (at once, when the minutes are zero or negative),
    a blocked hostname of an enabled policy is back in the effective
    blocklist, and that evaluation removes its exception from the store
    and saves. *)
Theorem exception_expires (now0 now : Z) (raw : str) (minutes : Z) (c : t) :
  let h := normalize raw in
  let c1 := add_exception now0 raw minutes c in
  let c2 := snd (get_effective_blocklist now c1) in
  enabled c = true -> In h (blocked_sites c) ->
  (now0 + timedelta_minutes minutes <= now)%Z ->
  In h (fst (get_effective_blocklist now c1))
  /\ (forall e, In e (exceptions c2) -> site e <> h)
  /\ saves c2 = S (saves c1) /\ in_sync c2.
Proof.
  intros h c1 c2 Hen Hb Hexp.
  destruct (add_exception_fields now0 raw minutes c) as (Hex & Hbs & Hen1).
  fold h c1 in Hex, Hbs, Hen1.
  assert (forall e, In e (exceptions c1) -> site e = h ->
                    expired_at now e = true) as Hh.
  { intros e He Es. rewrite Hex in He. apply in_app_or in He.
    destruct He as [He|[<-|[]]].
    - apply filter_In in He. destruct He as (_ & He).
      apply negb_true_iff, str_eqb_neq in He. contradiction.
    - unfold expired_at. cbn [until]. now apply Z.leb_le. }
  assert (existsb (expired_at now) (exceptions c1) = true) as Hx.
  { apply existsb_exists.
    exists {| site := h; until := (now0 + timedelta_minutes minutes)%Z |}.
    split; [rewrite Hex; apply in_or_app; right; now left|].
    unfold expired_at. cbn [until]. now apply Z.leb_le. }
  split; [|split; [|split]].
  - rewrite get_effective_blocklist_eq. cbn [fst].
    unfold effective_block_set. rewrite Hen1, Hen, Hbs.
    apply filter_In. split; [assumption|]. apply negb_true_iff.
    apply not_true_is_false. intros K. unfold has_active_exception in K.
    apply existsb_exists in K. destruct K as (e & He & K).
    apply andb_true_iff in K. destruct K as (K1 & K2).
    apply str_eqb_eq in K1. specialize (Hh e He K1).
    rewrite expired_at_ltb, K2 in Hh. discriminate Hh.
  - intros e He Es. subst c2.
    rewrite get_effective_blocklist_eq in He. cbn [snd] in He.
    rewrite Hen1, Hen in He.
    destruct (pruned_store now c1) as (_ & _ & Hp & _). rewrite Hp in He.
    apply filter_In in He. destruct He as (He & Ha).
    rewrite (Hh e He Es) in Ha. discriminate Ha.
  - subst c2. rewrite get_effective_blocklist_eq. cbn [snd].
    rewrite Hen1, Hen, get_active_exceptions_eq. cbn [snd].
    now rewrite Hx.
  - subst c2. rewrite get_effective_blocklist_eq. cbn [snd].
    rewrite Hen1, Hen, get_active_exceptions_eq. cbn [snd].
    now rewrite Hx.
Qed.

Lemma exception_expires_witness :
  let c := {| blocked_sites := [lit "x.com"]; exceptions := [];
              enabled := true; file := NoFile; saves := 0 |} in
  In (normalize (lit "X.com"))
     (fst (get_effective_blocklist 60000000
             (add_exception 0 (lit "X.com") 1 c))).
Proof.
  intros c.
  assert (enabled c = true) as H1 by reflexivity.
  assert (In (normalize (lit "X.com")) (blocked_sites c)) as H2 by now left.
  assert (0 + timedelta_minutes 1 <= 60000000)%Z as H3
    by (vm_compute; discriminate).
  exact (proj1 (exception_expires 0 60000000 (lit "X.com") 1 c H1 H2 H3)).
Defined.

End Composition.

(** ** The control surface and the main loop *)

Section Requests.

Import APIHandler StatusAPI.

Ltac site_cases b :=
  let v := fresh "v" in
  destruct (dict_get (lit "site") b (JStr [])) as [|[|]|v|[|? ?]];
  cbn [truthy]; try destruct (Z.eqb v 0); cbn [negb];
  try (right; left; eexists; eexists; reflexivity);
  try (right; right; reflexivity).

(** Every request either goes through [_apply_and_respond] after one
    mutating policy call, or is answered with an error, or raises; in the
    last two cases nothing has changed. *)
Lemma do_POST_cases (e : env) (path : str) (b : body) (w : world) :
  (exists k msg,
      is_mutator k = true
      /\ do_POST e path b w
         = _apply_and_respond e msg
             {| config := run_policy_call k (config w); hosts := hosts w |})
  \/ (exists code err, do_POST e path b w = (Error code err, w))
  \/ do_POST e path b w = (Raised, w).
Proof.
  unfold do_POST.
  destruct (str_eqb path (lit "/api/add_site")).
  { site_cases b. left.
    eexists (AddSite (first_site e) _), _. split; reflexivity. }
  destruct (str_eqb path (lit "/api/remove_site")).
  { site_cases b. left. eexists (RemoveSite _), _. split; reflexivity. }
  destruct (str_eqb path (lit "/api/add_exception")).
  { site_cases b.
    destruct (minutes_of (dict_get (lit "minutes") b (JNum 15))) as [m|].
    - left. eexists (AddException (now_mutate e) _ m), _. split; reflexivity.
    - right. right. reflexivity. }
  destruct (str_eqb path (lit "/api/remove_exception")).
  { site_cases b. left. eexists (RemoveException _), _. split; reflexivity. }
  destruct (str_eqb path (lit "/api/toggle")).
  { left. exists Toggle. eexists. split; reflexivity. }
  right. left. eexists. eexists. reflexivity.
Qed.

Lemma apply_and_respond_eq (e : env) (msg : message) (w : world) :
  let c := snd (Config.get_effective_blocklist (now_apply e) (config w)) in
  let eff := effective_block_set (now_apply e) (config w) in
  _apply_and_respond e msg w
  = (Status 200 msg (Config.enabled c) (Config.blocked_sites c)
            (Config.exceptions c) eff,
     {| config := c;
        hosts := HostsManager.apply_blocklist eff (hosts w) |}).
Proof.
  unfold _apply_and_respond. rewrite get_effective_blocklist_eq. reflexivity.
Qed.

Lemma str_eqb_lit_false (path x : str) : path <> x -> str_eqb path x = false.
Proof. apply str_eqb_neq. Qed.

(** X14: the error answers of [do_POST]. On the four paths that take a
    site, a site that is missing or falsy (empty, null, false, zero) is
    answered with 400; a path that [do_POST] does not know is answered
    with 404; and whenever the answer is an error, it is one of these two
    and nothing has changed: not the policy, not the config file, not the
    hosts file. *)
Theorem error_answers_change_nothing (e : env) (path : str) (b : body)
    (w : world) :
  (In path site_paths ->
   truthy (dict_get (lit "site") b (JStr [])) = false ->
   do_POST e path b w = (Error 400 (Some (lit "No site provided")), w))
  /\ (~ In path post_paths -> do_POST e path b w = (Error 404 None, w))
  /\ (forall code err w',
        do_POST e path b w = (Error code err, w') ->
        w' = w
        /\ ((code = 400 /\ In path site_paths
             /\ truthy (dict_get (lit "site") b (JStr [])) = false)
            \/ (code = 404 /\ ~ In path post_paths))).
Proof.
  split; [|split].
  - intros Hp Ht. unfold site_paths in Hp.
    destruct Hp as [<-|[<-|[<-|[<-|[]]]]]; unfold do_POST;
      repeat match goal with
        | |- context [str_eqb (lit ?a) (lit ?b)] =>
            let v := eval vm_compute in (str_eqb (lit a) (lit b)) in
            change (str_eqb (lit a) (lit b)) with v; cbv iota
        end;
      rewrite Ht; reflexivity.
  - intros Hp. unfold post_paths, site_paths in Hp. cbn [app In] in Hp.
    unfold do_POST.
    rewrite !str_eqb_lit_false;
      [reflexivity | | | | |]; intros ->; apply Hp; auto 10.
  - intros code err w' H. unfold do_POST in H.
    assert (forall msg w0 code0 err0 w1,
              _apply_and_respond e msg w0 <> (Error code0 err0, w1)) as Hst
      by (intros msg w0 code0 err0 w1; rewrite apply_and_respond_eq;
          discriminate).
    unfold post_paths, site_paths. cbn [app In].
    destruct (str_eqb path (lit "/api/add_site")) eqn:P1.
    { apply str_eqb_eq in P1.
      destruct (truthy (dict_get (lit "site") b (JStr []))) eqn:T.
      - destruct (dict_get (lit "site") b (JStr []));
          try discriminate H; now apply Hst in H.
      - injection H as <- <- <-. split; [reflexivity|]. left.
        split; [reflexivity|]. split; [subst path; auto 10 | reflexivity]. }
    destruct (str_eqb path (lit "/api/remove_site")) eqn:P2.
    { apply str_eqb_eq in P2.
      destruct (truthy (dict_get (lit "site") b (JStr []))) eqn:T.
      - destruct (dict_get (lit "site") b (JStr []));
          try discriminate H; now apply Hst in H.
      - injection H as <- <- <-. split; [reflexivity|]. left.
        split; [reflexivity|]. split; [subst path; auto 10 | reflexivity]. }
    destruct (str_eqb path (lit "/api/add_exception")) eqn:P3.
    { apply str_eqb_eq in P3.
      destruct (truthy (dict_get (lit "site") b (JStr []))) eqn:T.
      - destruct (dict_get (lit "site") b (JStr []));
          try discriminate H.
        destruct (minutes_of (dict_get (lit "minutes") b (JNum 15)));
          try discriminate H; now apply Hst in H.
      - injection H as <- <- <-. split; [reflexivity|]. left.
        split; [reflexivity|]. split; [subst path; auto 10 | reflexivity]. }
    destruct (str_eqb path (lit "/api/remove_exception")) eqn:P4.
    { apply str_eqb_eq in P4.
      destruct (truthy (dict_get (lit "site") b (JStr []))) eqn:T.
      - destruct (dict_get (lit "site") b (JStr []));
          try discriminate H; now apply Hst in H.
      - injection H as <- <- <-. split; [reflexivity|]. left.
        split; [reflexivity|]. split; [subst path; auto 10 | reflexivity]. }
    destruct (str_eqb path (lit "/api/toggle")) eqn:P5.
    { now apply Hst in H. }
    injection H as <- <- <-. split; [reflexivity|]. right.
    split; [reflexivity|].
    apply str_eqb_neq in P1, P2, P3, P4, P5.
    intros [K|[K|[K|[K|[K|[]]]]]]; congruence.
Qed.

Lemma error_answers_change_nothing_witness :
  let e := {| first_site := true; now_mutate := 10; now_apply := 11 |} in
  let w := {| config := {| Config.blocked_sites := [lit "x.com"];
                           Config.exceptions := [];
                           Config.enabled := true;
                           Config.file := Config.NoFile;
                           Config.saves := 0 |};
              hosts := text ["127.0.0.1 localhost"]%string |} in
  do_POST e (lit "/api/remove_site") [(lit "site", JNull)] w
  = (Error 400 (Some (lit "No site provided")), w)
  /\ do_POST e (lit "/api/unknown") [(lit "site", JStr (lit "x.com"))] w
     = (Error 404 None, w).
Proof.
  intros e w. split.
  - apply (error_answers_change_nothing e (lit "/api/remove_site")
             [(lit "site", JNull)] w).
    + right. now left.
    + reflexivity.
  - apply (error_answers_change_nothing e (lit "/api/unknown")
             [(lit "site", JStr (lit "x.com"))] w).
    unfold post_paths, site_paths. cbn [app In].
    intros [K|[K|[K|[K|[K|[]]]]]]; discriminate K.
Defined.

(** X15: a status answer tells the final state. When [do_POST] answers
    with a status, the code is 200, the answer carries the policy as it is
    stored after the request and the effective blocklist at the time of
    applying, the config file holds that policy, and the hosts file is the
    stripped old content followed by the block of that effective
    blocklist. *)
Theorem status_answer_is_final_state (e : env) (path : str) (b : body)
    (w w' : world) code msg en bs ex eff :
  do_POST e path b w = (Status code msg en bs ex eff, w') ->
  code = 200
  /\ en = Config.enabled (config w')
  /\ bs = Config.blocked_sites (config w')
  /\ ex = Config.exceptions (config w')
  /\ eff = effective_block_set (now_apply e) (config w')
  /\ eff = fst (Config.get_effective_blocklist (now_apply e) (config w'))
  /\ in_sync (config w')
  /\ hosts w'
     = HostsManager._strip_our_entries (hosts w) ++ block_text eff.
Proof.
  destruct (do_POST_cases e path b w)
    as [(k & msg0 & Hk & ->) | [(c0 & err & ->) | ->]];
    [|discriminate|discriminate].
  rewrite apply_and_respond_eq. cbn [config hosts].
  intros K. injection K as <- <- <- <- <- <- <-. cbn [config hosts].
  assert (effective_block_set (now_apply e) (run_policy_call k (config w))
          = effective_block_set (now_apply e)
              (snd (Config.get_effective_blocklist (now_apply e)
                      (run_policy_call k (config w))))) as E
    by (symmetry; apply effective_block_set_pruned).
  repeat split.
  - exact E.
  - rewrite get_effective_blocklist_eq. exact E.
  - apply evaluated_store.
    exact (proj1 (run_call_in_sync k (config w)) Hk).
  - apply apply_blocklist_text.
Qed.

Lemma status_answer_is_final_state_witness :
  let e := {| first_site := true; now_mutate := 10; now_apply := 11 |} in
  let w := {| config := {| Config.blocked_sites := [];
                           Config.exceptions := [];
                           Config.enabled := true;
                           Config.file := Config.NoFile;
                           Config.saves := 0 |};
              hosts := text ["127.0.0.1 localhost"]%string |} in
  let r := do_POST e (lit "/api/add_site") [(lit "site", JStr (lit "X.com"))] w in
  in_sync (config (snd r)).
Proof.
  intros e w r.
  destruct r as (resp, w') eqn:R. subst r.
  assert (exists code msg en bs ex eff,
             resp = Status code msg en bs ex eff) as (code & msg & en & bs
                                                      & ex & eff & ->).
  { vm_compute in R. injection R as <- _. repeat eexists. }
  exact (proj1 (proj2 (proj2 (proj2 (proj2 (proj2 (proj2
           (status_answer_is_final_state e (lit "/api/add_site")
              [(lit "site", JStr (lit "X.com"))] w w'
              code msg en bs ex eff R)))))))).
Defined.

(** X16: reading the status. [do_GET] never touches the hosts file, the
    blocklist or the enabled flag; on a path other than the status path it
    changes nothing at all; on the status path it prunes as
    [get_effective_blocklist] does, and the answer lists the exceptions as
    they were stored before that pruning. *)
Theorem status_read (now : Z) (path : str) (w : world) :
  let '(r, w') := do_GET now path w in
  hosts w' = hosts w
  /\ Config.blocked_sites (config w') = Config.blocked_sites (config w)
  /\ Config.enabled (config w') = Config.enabled (config w)
  /\ (in_sync (config w) -> in_sync (config w'))
  /\ (path <> lit "/api/status" -> w' = w)
  /\ (path = lit "/api/status" ->
      r = StatusBody (Config.enabled (config w))
                     (Config.blocked_sites (config w))
                     (Config.exceptions (config w))
                     (effective_block_set now (config w))
      /\ Config.exceptions (config w')
         = if Config.enabled (config w)
           then filter (fun x => negb (expired_at now x))
                       (Config.exceptions (config w))
           else Config.exceptions (config w)).
Proof.
  unfold do_GET.
  destruct (str_eqb path (lit "/api/status")) eqn:P.
  - apply str_eqb_eq in P.
    rewrite get_effective_blocklist_eq.
    destruct (evaluated_store now (config w)) as (Hb & He & Hs).
    rewrite get_effective_blocklist_eq in Hb, He, Hs. cbn [snd] in Hb, He, Hs.
    cbn [config hosts].
    split; [reflexivity|]. split; [exact Hb|]. split; [exact He|].
    split; [exact Hs|]. split; [congruence|]. intros _.
    split; [reflexivity|].
    destruct (Config.enabled (config w)); [|reflexivity].
    apply (pruned_store now (config w)).
  - apply str_eqb_neq in P.
    destruct (str_eqb path (lit "/api/ping"));
      (split; [reflexivity|]; split; [reflexivity|]; split; [reflexivity|];
       split; [trivial|]; split; [reflexivity | contradiction]).
Qed.

Lemma status_read_witness :
  let w := {| config := {| Config.blocked_sites := [lit "x.com"];
                           Config.exceptions :=
                             [{| Config.site := lit "x.com";
                                 Config.until := 3 |}];
                           Config.enabled := true;
                           Config.file := Config.NoFile;
                           Config.saves := 0 |};
              hosts := [] |} in
  fst (do_GET 5 (lit "/api/status") w)
  = StatusBody true [lit "x.com"]
               [{| Config.site := lit "x.com"; Config.until := 3 |}]
               [lit "x.com"]
  /\ Config.exceptions (config (snd (do_GET 5 (lit "/api/status") w))) = [].
Proof.
  intros w. pose proof (status_read 5 (lit "/api/status") w) as H.
  destruct (do_GET 5 (lit "/api/status") w) as (r, w').
  destruct H as (_ & _ & _ & _ & _ & H).
  destruct (H eq_refl) as (E1 & E2). cbn [fst snd].
  rewrite E1, E2. split; reflexivity.
Defined.

(** X17: the toggle request flips the enabled flag and saves; when it
    switches the blocker off the answer carries an empty effective
    blocklist and the hosts file is left without a region; a second toggle
    brings the flag back and never touches the blocklist. *)
Theorem toggle_request (e e2 : env) (b b2 : body) (w : world) :
  let '(r, w1) := do_POST e (lit "/api/toggle") b w in
  let w2 := snd (do_POST e2 (lit "/api/toggle") b2 w1) in
  Config.enabled (config w1) = negb (Config.enabled (config w))
  /\ in_sync (config w1)
  /\ (Config.enabled (config w) = true ->
      hosts w1 = HostsManager.clear (hosts w)
      /\ exists msg bs ex, r = Status 200 msg false bs ex [])
  /\ Config.enabled (config w2) = Config.enabled (config w)
  /\ Config.blocked_sites (config w2) = Config.blocked_sites (config w).
Proof.
  assert (forall e0 b0 w0,
            do_POST e0 (lit "/api/toggle") b0 w0
            = _apply_and_respond e0
                (Blocker (negb (Config.enabled (config w0))))
                {| config := run_policy_call Toggle (config w0);
                   hosts := hosts w0 |}) as Hp by reflexivity.
  rewrite Hp, apply_and_respond_eq. cbn [config hosts snd].
  rewrite Hp, apply_and_respond_eq. cbn [config hosts snd].
  set (c1 := run_policy_call Toggle (config w)).
  destruct (evaluated_store (now_apply e) c1) as (Hb1 & He1 & Hs1).
  set (c1' := snd (Config.get_effective_blocklist (now_apply e) c1)) in *.
  set (c2 := run_policy_call Toggle c1').
  destruct (evaluated_store (now_apply e2) c2) as (Hb2 & He2 & _).
  assert (Config.enabled c1 = negb (Config.enabled (config w))) as E1
    by reflexivity.
  split; [congruence|]. split; [now apply Hs1|]. split.
  - intros En. unfold effective_block_set. rewrite E1, En. cbn [negb].
    split; [reflexivity|]. rewrite He1, E1, En. cbn [negb].
    now eexists _, _, _.
  - split.
    + rewrite He2. change (Config.enabled c2) with (negb (Config.enabled c1')).
      rewrite He1, E1. apply negb_involutive.
    + rewrite Hb2.
      change (Config.blocked_sites c2) with (Config.blocked_sites c1').
      now rewrite Hb1.
Qed.

Lemma toggle_request_witness :
  let e := {| first_site := true; now_mutate := 1; now_apply := 2 |} in
  let w := {| config := {| Config.blocked_sites := [lit "x.com"];
                           Config.exceptions := [];
                           Config.enabled := true;
                           Config.file := Config.NoFile;
                           Config.saves := 0 |};
              hosts := HostsManager.apply_blocklist [lit "x.com"] [] |} in
  hosts (snd (do_POST e (lit "/api/toggle") [] w)) = [].
Proof.
  intros e w. pose proof (toggle_request e e [] [] w) as H.
  destruct (do_POST e (lit "/api/toggle") [] w) as (r, w1).
  destruct H as (_ & _ & H & _). destruct (H eq_refl) as (E & _).
  cbn [snd]. rewrite E. reflexivity.
Defined.

Lemma log_status_store (t1 t2 : Z) (c : Config.t) :
  let c' := snd (DNSMonitor.log_status t1 t2 c) in
  Config.blocked_sites c' = Config.blocked_sites c
  /\ Config.enabled c' = Config.enabled c
  /\ (in_sync c -> in_sync c').
Proof.
  unfold DNSMonitor.log_status.
  destruct (evaluated_store t1 c) as (Hb & He & Hs).
  destruct (Config.get_effective_blocklist t1 c) as (eff, c1).
  cbn [snd] in Hb, He, Hs.
  destruct (pruned_store t2 c1) as (Hb2 & He2 & _ & Hs2).
  destruct (Config.get_active_exceptions t2 c1) as (ex, c2).
  cbn [snd] in *. split; [congruence|]. split; [congruence | auto].
Qed.

Lemma effective_plain (now : Z) (c : Config.t) :
  plain_sites (Config.blocked_sites c) ->
  plain_sites (effective_block_set now c).
Proof.
  intros H. unfold effective_block_set, plain_sites in *.
  destruct (Config.enabled c); [|constructor].
  apply Forall_forall. intros s Hs. apply filter_In in Hs.
  rewrite Forall_forall in H. now apply H.
Qed.

Lemma run_call_plain (k : policy_call) (c : Config.t) :
  plain_sites (Config.blocked_sites c) ->
  plain_sites (Config.blocked_sites (run_policy_call k c)).
Proof.
  intros H.
  destruct (run_call_blocked k c)
    as [(fs & raw & added & -> & _ & Hin) | (f & ->)].
  - apply Forall_app. split; [assumption|].
    apply Forall_forall. intros v Hv. apply Hin in Hv.
    destruct Hv as (Hv & _). now apply variant_set_plain in Hv.
  - unfold plain_sites in *. apply Forall_forall. intros v Hv.
    apply filter_In in Hv. rewrite Forall_forall in H. now apply H.
Qed.

Lemma strip_applied (now : Z) (c : Config.t) (h : str) :
  plain_sites (Config.blocked_sites c) ->
  HostsManager._strip_our_entries
    (HostsManager.apply_blocklist (effective_block_set now c) h)
  = HostsManager._strip_our_entries h.
Proof. intros H. apply strip_apply. now apply effective_plain. Qed.

(** Every event keeps the process in a good state and the stripped hosts
    content as it was. *)
End Requests.

(** ** The process: startup, rounds of the loop, cleanup *)

Section Process.

Import APIHandler DNSMonitor ConfigIO Main.




Lemma pruned_file (now : Z) (c : Config.t) :
  plain_sites (Config.blocked_sites c) ->
  content_plain (on_disk (Config.file c)) ->
  content_plain
    (on_disk (Config.file (snd (Config.get_active_exceptions now c)))).
Proof.
  intros Hp Hf. rewrite get_active_exceptions_eq. cbn [snd].
  destruct (existsb (expired_at now) (Config.exceptions c));
    [exact Hp | exact Hf].
Qed.

Lemma evaluated_file (now : Z) (c : Config.t) :
  plain_sites (Config.blocked_sites c) ->
  content_plain (on_disk (Config.file c)) ->
  content_plain
    (on_disk (Config.file (snd (Config.get_effective_blocklist now c)))).
Proof.
  intros Hp Hf. rewrite get_effective_blocklist_eq. cbn [snd].
  destruct (Config.enabled c); [now apply pruned_file | exact Hf].
Qed.

Lemma run_call_file (k : policy_call) (c : Config.t) :
  plain_sites (Config.blocked_sites c) ->
  content_plain (on_disk (Config.file c)) ->
  content_plain (on_disk (Config.file (run_policy_call k c))).
Proof.
  intros Hp Hf. pose proof (run_call_plain k c Hp) as Hp'.
  destruct (is_mutator k) eqn:M.
  - pose proof (proj1 (run_call_in_sync k c) M) as S.
    unfold in_sync in S. rewrite S. exact Hp'.
  - destruct k; try discriminate M; cbn [run_policy_call].
    + now apply pruned_file.
    + now apply evaluated_file.
Qed.

Lemma log_status_file (t1 t2 : Z) (c : Config.t) :
  plain_sites (Config.blocked_sites c) ->
  content_plain (on_disk (Config.file c)) ->
  content_plain (on_disk (Config.file (snd (log_status t1 t2 c)))).
Proof.
  intros Hp Hf. unfold log_status.
  pose proof (evaluated_file t1 c Hp Hf) as Hf1.
  destruct (evaluated_store t1 c) as (Hb & _).
  destruct (Config.get_effective_blocklist t1 c) as (eff, c1).
  cbn [snd] in Hf1, Hb. rewrite <- Hb in Hp.
  pose proof (pruned_file t2 c1 Hp Hf1) as Hf2.
  destruct (Config.get_active_exceptions t2 c1) as (ex, c2). exact Hf2.
Qed.

Lemma after_save_plain (c c' : Config.t) (ed : option content) :
  (forall d, ed = Some d -> content_plain d) ->
  forall d, after_save c c' ed = Some d -> content_plain d.
Proof.
  intros H d. unfold after_save.
  destruct (Nat.eqb (Config.saves c') (Config.saves c)); [apply H | discriminate].
Qed.

Lemma process_ok_disk (hosts0 : str) (p : process) :
  process_ok hosts0 p -> content_plain (disk p).
Proof.
  intros (_ & _ & He & Hf & _). unfold disk.
  destruct (edited p) as [d|]; [now apply He | exact Hf].
Qed.

(** What [load] returns has a plain blocklist when the file and the
    default list have. *)
Lemma load_plain (DEFAULT : list str) (d : content) (c c0 : Config.t)
    (al : bool) :
  plain_sites DEFAULT -> content_plain d ->
  content_plain (on_disk (Config.file c)) ->
  load DEFAULT d c = Loaded c0 al ->
  plain_sites (Config.blocked_sites c0)
  /\ content_plain (on_disk (Config.file c0)).
Proof.
  intros Hd Hc Hf L. destruct d as [| | |bs ex en]; cbn in L;
    try discriminate L; injection L as <- <-.
  - split; exact Hd.
  - split; [|exact Hf]. destruct bs; [exact Hc | exact Hd].
Qed.

Lemma tick_ok (hosts0 : str) (t1 t2 t3 : Z) (g : nat -> str -> lookup)
    (p p' : process) :
  process_ok hosts0 p ->
  tick t1 t2 t3 g p = Goes p' \/ tick t1 t2 t3 g p = Dies p' ->
  process_ok hosts0 p'.
Proof.
  intros Hok H. pose proof (process_ok_disk _ _ Hok) as Hdisk.
  destruct Hok as (Hb & Hd & He & Hf & Hh). unfold tick in H.
  destruct (load (default_blocked p) (disk p) (config (world p)))
    as [c0 al|] eqn:L.
  - destruct (load_plain _ _ _ _ _ Hd Hdisk Hf L) as (Hb0 & Hf0).
    pose proof (evaluated_file t1 c0 Hb0 Hf0) as Hf1.
    destruct (evaluated_store t1 c0) as (Hb1 & _).
    rewrite get_effective_blocklist_eq in H, Hf1, Hb1.
    cbn [snd] in Hf1, Hb1.
    set (c1 := if Config.enabled c0
               then snd (Config.get_active_exceptions t1 c0) else c0) in *.
    assert (plain_sites (Config.blocked_sites c1)) as Hp1
      by now rewrite Hb1.
    pose proof (log_status_file t2 t3 c1 Hp1 Hf1) as Hf2.
    destruct (log_status_store t2 t3 c1) as (Hb2 & _).
    destruct (resolve_sites g (Config.blocked_sites c1) (resolved_ips p))
      as (t, ended).
    destruct (log_status t2 t3 c1) as (lines, c2). cbn [snd] in Hf2, Hb2.
    assert (HostsManager._strip_our_entries
              (HostsManager.apply_blocklist (effective_block_set t1 c0)
                                            (hosts (world p)))
            = HostsManager._strip_our_entries hosts0) as Hh'
      by (rewrite strip_applied; assumption).
    destruct ended; destruct H as [H|H]; try discriminate H;
      injection H as <-; unfold process_ok; cbn [world config hosts
        default_blocked edited];
      (split; [congruence|]); (split; [assumption|]);
      (split; [now apply after_save_plain|]); (split; assumption).
  - destruct H as [H|H]; [discriminate H|]. injection H as <-.
    now repeat split.
Qed.



Lemma post_ok (hosts0 : str) (e : env) (path : str) (b : body) (p : process) :
  process_ok hosts0 p -> process_ok hosts0 (post e path b p).
Proof.
  intros (Hb & Hd & He & Hf & Hh). unfold post.
  assert (forall w,
            plain_sites (Config.blocked_sites (config w)) ->
            plain_sites
              (if aliased p && str_eqb path (lit "/api/add_site")
               then Config.blocked_sites (config w) else default_blocked p))
    as Hdef
    by (intros w H; destruct (aliased p && str_eqb path (lit "/api/add_site"));
        assumption).
  destruct (do_POST_cases e path b (world p))
    as [(k & msg & Hk & ->) | [(c0 & err & ->) | ->]].
  - rewrite apply_and_respond_eq. cbn [config hosts].
    pose proof (run_call_plain k _ Hb) as Hb1.
    pose proof (run_call_file k _ Hb Hf) as Hf1.
    destruct (evaluated_store (now_apply e) (run_policy_call k (config (world p))))
      as (Hb2 & _).
    unfold process_ok. cbn [world config hosts default_blocked edited].
    assert (plain_sites
              (Config.blocked_sites
                 (snd (Config.get_effective_blocklist (now_apply e)
                         (run_policy_call k (config (world p)))))))
      as Hb3 by now rewrite Hb2.
    split; [exact Hb3|]. split; [now apply (Hdef {| config := _; hosts := [] |})|].
    split; [now apply after_save_plain|].
    split; [now apply evaluated_file|].
    rewrite strip_applied; assumption.
  - unfold process_ok. cbn [world config hosts default_blocked edited].
    split; [assumption|]. split; [now apply Hdef|].
    split; [now apply after_save_plain|]. now split.
  - unfold process_ok. cbn [world config hosts default_blocked edited].
    split; [assumption|]. split; [now apply Hdef|].
    split; [now apply after_save_plain|]. now split.
Qed.

Lemma get_ok (hosts0 : str) (now : Z) (path : str) (p : process) :
  process_ok hosts0 p -> process_ok hosts0 (get now path p).
Proof.
  intros (Hb & Hd & He & Hf & Hh). unfold get, StatusAPI.do_GET.
  destruct (str_eqb path (lit "/api/status")).
  - pose proof (evaluated_file now _ Hb Hf) as Hf1.
    destruct (evaluated_store now (config (world p))) as (Hb1 & _).
    destruct (Config.get_effective_blocklist now (config (world p)))
      as (eff, c).
    cbn [snd] in Hf1, Hb1.
    unfold process_ok. cbn [world config hosts default_blocked edited].
    split; [congruence|]. split; [assumption|].
    split; [now apply after_save_plain|]. now split.
  - destruct (str_eqb path (lit "/api/ping"));
      unfold process_ok; cbn [world config hosts default_blocked edited];
      (split; [assumption|]); (split; [assumption|]);
      (split; [now apply after_save_plain|]); now split.
Qed.

Lemma run_events_ok (hosts0 : str) (evs : list event) (p p' : process) :
  process_ok hosts0 p -> Forall event_plain evs ->
  run_events evs p = Goes p' \/ run_events evs p = Dies p' ->
  process_ok hosts0 p'.
Proof.
  revert p. induction evs as [|ev evs IH]; intros p Hok Hev H.
  - destruct H as [H|H]; [|discriminate H]. now injection H as <-.
  - inversion Hev as [|? ? Hev1 Hev2]; subst. cbn [run_events] in H.
    destruct ev as [e path b | now path | t1 t2 t3 g | d];
      cbn [run_event] in H.
    + apply (IH _ (post_ok _ e path b p Hok) Hev2 H).
    + apply (IH _ (get_ok _ now path p Hok) Hev2 H).
    + destruct (tick t1 t2 t3 g p) as [p1|p1] eqn:T.
      * apply (IH p1); [|assumption|assumption].
        apply (tick_ok _ t1 t2 t3 g p); [assumption | now left].
      * destruct H as [H|H]; [discriminate H|]. injection H as <-.
        apply (tick_ok _ t1 t2 t3 g p); [assumption | now right].
    + apply (IH (edit d p)); [|assumption|assumption].
      destruct Hok as (Hb & Hd & He & Hf & Hh).
      unfold process_ok, edit.
      cbn [world config hosts default_blocked edited].
      split; [assumption|]. split; [assumption|].
      split; [|now split]. intros d0 K. injection K as <-. exact Hev1.
Qed.

Lemma DEFAULT_BLOCKED_plain : plain_sites DEFAULT_BLOCKED.
Proof. repeat constructor. Qed.

Lemma startup_ok (now : Z) (d : content) (hosts0 : str) (p0 : process) :
  content_plain d -> startup now d hosts0 = Goes p0 ->
  process_ok hosts0 p0.
Proof.
  intros Hd St. unfold startup in St.
  destruct (load DEFAULT_BLOCKED d (fresh Config.NoFile)) as [c0 al|] eqn:L;
    [|discriminate St].
  destruct (load_plain DEFAULT_BLOCKED d (fresh Config.NoFile) c0 al
              DEFAULT_BLOCKED_plain Hd I L) as (Hb0 & Hf0).
  pose proof (evaluated_file now c0 Hb0 Hf0) as Hf1.
  destruct (evaluated_store now c0) as (Hb1 & _).
  rewrite get_effective_blocklist_eq in St, Hf1, Hb1. cbn [snd] in Hf1, Hb1.
  injection St as <-. unfold process_ok.
  cbn [world config hosts default_blocked edited].
  split; [congruence|]. split; [exact DEFAULT_BLOCKED_plain|].
  split; [|split; [exact Hf1 | now apply strip_applied]].
  apply after_save_plain. intros d0 K. now injection K as <-.
Qed.

(** X19: a whole session, one step at a time, provided the hosts file can
    be read and written. Started on a config file, and with outside
    edits of it, whose blocklists have no hostname with the end marker in
    it: wherever a sequence of requests, rounds and edits ends or dies,
    the lines of the hosts file outside the region are those found at the
    start; and when the process gets to [cleanup], the hosts file is left
    as clearing the file found at the start gives it, with no region in
    it, and the config file holds the policy in memory. *)
Theorem session_leaves_hosts_clean
    (now0 : Z) (d : content) (hosts0 : str) (evs : list event)
    (p0 : process) :
  content_plain d -> Forall event_plain evs ->
  startup now0 d hosts0 = Goes p0 ->
  (forall p,
     run_events evs p0 = Goes p \/ run_events evs p0 = Dies p ->
     HostsManager._strip_our_entries (hosts (world p))
     = HostsManager._strip_our_entries hosts0)
  /\ (forall p,
        run_events evs p0 = Goes p ->
        hosts (world (cleanup p)) = HostsManager.clear hosts0
        /\ HostsManager.get_current_blocks (hosts (world (cleanup p))) = []
        /\ disk (cleanup p)
           = on_disk (Config.JsonFile (Config.data_of (config (world p))))).
Proof.
  intros Hd Hev St. pose proof (startup_ok _ _ _ _ Hd St) as Hok.
  split.
  - intros p H. now apply (run_events_ok hosts0 evs p0 p Hok Hev H).
  - intros p H.
    destruct (run_events_ok hosts0 evs p0 p Hok Hev (or_introl H))
      as (_ & _ & _ & _ & Hh).
    assert (hosts (world (cleanup p)) = HostsManager.clear hosts0) as Hc
      by (cbn [cleanup world hosts]; unfold HostsManager.clear; exact Hh).
    split; [exact Hc|]. split; [|reflexivity].
    rewrite Hc, get_current_blocks_found, split_clear.
    apply found_outer, as_lines_outer, outside_lines_outer.
Qed.

Lemma session_leaves_hosts_clean_witness :
  let hosts0 := text ["127.0.0.1 localhost"]%string in
  let e := {| first_site := true; now_mutate := 10; now_apply := 11 |} in
  let g := fun (_ : nat) (_ : str) => GaiError in
  let evs := [Edit (Object None None (Some true));
              Tick 20 21 22 g;
              Post e (lit "/api/add_site") [(lit "site", JStr (lit "A.com"))];
              Get 30 (lit "/api/status")] in
  exists p0 p,
    startup 0 Missing hosts0 = Goes p0
    /\ run_events evs p0 = Goes p
    /\ hosts (world (cleanup p)) = HostsManager.clear hosts0.
Proof.
  intros hosts0 e g evs.
  destruct (startup 0 Missing hosts0) as [p0|p0] eqn:St;
    [|vm_compute in St; discriminate St].
  destruct (run_events evs p0) as [p|p] eqn:R.
  - exists p0, p. split; [first [reflexivity | exact St]|].
    split; [first [reflexivity | exact R]|].
    assert (Forall event_plain evs) as Hev by (repeat constructor).
    exact (proj1 (proj2 (session_leaves_hosts_clean 0 Missing hosts0 evs p0
                           I Hev St) p R)).
  - exfalso. vm_compute in St. injection St as <-.
    vm_compute in R. discriminate R.
Defined.

End Process.
